(** * Trace capture and delivery engine of the X-Ray SDK

    A shallow embedding of [xray/models.py], [xray/sampling.py],
    [xray/config.py], [xray/client.py] and [xray/context.py], followed by
    the properties of the engine that the design document states.

    Python integers are [Z]; dictionaries keyed by strings are finite maps;
    the objects that the context managers mutate and share live in a store
    addressed by references; an exception that leaves a function is the
    [Raise] case of [result]. *)

From Stdlib Require Import ZArith List Floats Uint63 Ascii.
From stdpp Require Import gmap strings list fin_maps.

Local Open Scope Z_scope.

(** ** Python values, exceptions and results *)

(** The values that the SDK itself stores in its open key/value maps. *)
#[local] Unset Elimination Schemes.
Inductive pyval : Type :=
| PyNone
| PyBool (b : bool)
| PyInt (z : Z)
| PyStr (s : string)
| PyList (l : list pyval)
| PyDict (d : list (string * pyval)).
#[local] Set Elimination Schemes.

(** Truth value of an object in a condition ([if x:], [not x]). *)
Definition truthy (v : pyval) : bool :=
  match v with
  | PyNone => false
  | PyBool b => b
  | PyInt z => negb (z =? 0)
  | PyStr s => negb (String.eqb s "")
  | PyList l => match l with [] => false | _ => true end
  | PyDict d => match d with [] => false | _ => true end
  end.

(** An exception object: the name of its class ([type(e).__name__]) and its
    text ([str(e)]). *)
Record exn : Type := mk_exn { exn_type : string; exn_message : string }.

Inductive result (A : Type) : Type :=
| Ok (a : A)
| Raise (e : exn).
Arguments Ok {A} a.
Arguments Raise {A} e.

Definition ValueError (msg : string) : exn := mk_exn "ValueError" msg.
Definition RuntimeError (msg : string) : exn := mk_exn "RuntimeError" msg.
Definition TypeError (msg : string) : exn := mk_exn "TypeError" msg.
Definition AttributeError (msg : string) : exn := mk_exn "AttributeError" msg.

(** [type(v).__name__]. *)
Definition type_name (v : pyval) : string :=
  match v with
  | PyNone => "NoneType"
  | PyBool _ => "bool"
  | PyInt _ => "int"
  | PyStr _ => "str"
  | PyList _ => "list"
  | PyDict _ => "dict"
  end.
(** pydantic's [ValidationError]; the class derives from [ValueError]. *)
Definition ValidationError (msg : string) : exn := mk_exn "ValidationError" msg.

(** [isinstance(e, ValueError)]. *)
Definition is_ValueError (e : exn) : bool :=
  String.eqb (exn_type e) "ValueError" || String.eqb (exn_type e) "ValidationError".

(** *** Sequences *)

(** Clamping of one slice bound against a sequence of length [n]. *)
Definition slice_bound (n i : Z) : Z :=
  if i <? 0 then Z.max 0 (i + n) else Z.min i n.

(** [l[start:stop]] with step one; [None] is an omitted bound. *)
Definition py_slice {A} (l : list A) (start stop : option Z) : list A :=
  let n := Z.of_nat (length l) in
  let a := match start with None => 0 | Some i => slice_bound n i end in
  let b := match stop with None => n | Some j => slice_bound n j end in
  take (Z.to_nat (b - a)) (drop (Z.to_nat a) l).

(** [len(l)]. *)
Definition len {A} (l : list A) : Z := Z.of_nat (length l).

(** *** The random source

    The generator is the list of its future draws; an exhausted generator
    yields zero. [random.sample(population, k)] picks [k] positions without
    replacement, one draw each, and rejects a [k] outside [0..len]. *)
Definition rng : Type := list nat.

Definition draw (g : rng) : nat * rng :=
  match g with
  | [] => (0%nat, [])
  | r :: g' => (r, g')
  end.

Fixpoint pick {A} (k : nat) (g : rng) (pool : list A) : list A * rng :=
  match k with
  | O => ([], g)
  | S k' =>
      let '(r, g1) := draw g in
      let i := (r mod length pool)%nat in
      match pool !! i with
      | None => ([], g1)
      | Some x =>
          let '(xs, g2) := pick k' g1 (delete i pool) in
          (x :: xs, g2)
      end
  end.

Definition random_sample {A} (g : rng) (population : list A) (k : Z)
  : result (list A) * rng :=
  if (k <? 0) || (len population <? k)
  then (Raise (ValueError "Sample larger than population or is negative"), g)
  else let '(xs, g') := pick (Z.to_nat k) g population in (Ok xs, g').

(** ** Data model ([xray/models.py]) *)

Module Models.

Inductive RunStatus : Type := RUNNING | SUCCESS | FAILURE | PARTIAL.

Inductive StepType : Type :=
  LLM | SEARCH | FILTER | RANK | SELECT | TRANSFORM | CUSTOM.

#[global] Instance RunStatus_eq_dec : EqDecision RunStatus.
Proof. solve_decision. Defined.

(** A status other than [RUNNING]. *)
Definition is_terminal (s : RunStatus) : bool :=
  match s with RUNNING => false | _ => true end.

(** [StepModel]. Identifiers are the values [uuid4] returned, times the
    values [datetime.utcnow] returned. The fields [inputs], [outputs],
    [filters_applied] and [candidates_data] are plain slots written by the
    setters only and are left out. *)
Record StepModel : Type := mkStepModel {
  step_id : nat;
  run_id : option nat;
  step_name : string;
  step_type : StepType;
  sequence : Z;
  step_start_time : option Z;
  step_end_time : option Z;
  reasoning : string;
  candidates_in : option Z;
  candidates_out : option Z;
  step_metadata : gmap string pyval
}.

(** [StepModel(step_name=..., step_type=..., sequence=...)]. *)
Definition StepModel_init (uuid : nat) (name : string) (ty : StepType) (seq : Z)
  : StepModel :=
  mkStepModel uuid None name ty seq None None "" None None ∅.

Definition set_run_id (v : option nat) (s : StepModel) : StepModel :=
  mkStepModel (step_id s) v (step_name s) (step_type s) (sequence s)
    (step_start_time s) (step_end_time s) (reasoning s)
    (candidates_in s) (candidates_out s) (step_metadata s).

Definition set_start_time (v : option Z) (s : StepModel) : StepModel :=
  mkStepModel (step_id s) (run_id s) (step_name s) (step_type s) (sequence s)
    v (step_end_time s) (reasoning s)
    (candidates_in s) (candidates_out s) (step_metadata s).

Definition set_end_time (v : option Z) (s : StepModel) : StepModel :=
  mkStepModel (step_id s) (run_id s) (step_name s) (step_type s) (sequence s)
    (step_start_time s) v (reasoning s)
    (candidates_in s) (candidates_out s) (step_metadata s).

Definition set_reasoning (v : string) (s : StepModel) : StepModel :=
  mkStepModel (step_id s) (run_id s) (step_name s) (step_type s) (sequence s)
    (step_start_time s) (step_end_time s) v
    (candidates_in s) (candidates_out s) (step_metadata s).

Definition set_counts (i o : option Z) (s : StepModel) : StepModel :=
  mkStepModel (step_id s) (run_id s) (step_name s) (step_type s) (sequence s)
    (step_start_time s) (step_end_time s) (reasoning s)
    i o (step_metadata s).

Definition set_step_metadata (m : gmap string pyval) (s : StepModel) : StepModel :=
  mkStepModel (step_id s) (run_id s) (step_name s) (step_type s) (sequence s)
    (step_start_time s) (step_end_time s) (reasoning s)
    (candidates_in s) (candidates_out s) m.

Section ReductionRate.
(** Python's [float] and the true division [a / b] of two integers with
    [b] non-zero. *)
Context {pyfloat : Type} (truediv : Z -> Z -> pyfloat).

(** The property [StepModel.reduction_rate]. The first test is the truth
    value of [candidates_in], which is false for [None] and for [0]. *)
Definition reduction_rate (s : StepModel) : option pyfloat :=
  match candidates_in s, candidates_out s with
  | Some i, Some o =>
      if negb (i =? 0) then
        if i =? 0 then None
        else let eliminated := i - o in Some (truediv eliminated i)
      else None
  | _, _ => None
  end.
End ReductionRate.

(** The division of two integers of magnitude below [2^53] in binary64:
    both convert exactly and the quotient is rounded once, which is what
    Python's [/] returns for them. *)
Definition float_of_Z (z : Z) : float :=
  if z <? 0
  then PrimFloat.opp (PrimFloat.of_uint63 (Uint63.of_Z (- z)))
  else PrimFloat.of_uint63 (Uint63.of_Z z).

Definition float_truediv (a b : Z) : float :=
  PrimFloat.div (float_of_Z a) (float_of_Z b).

(** [RunModel]. *)
Record RunModel : Type := mkRunModel {
  id : nat;
  pipeline_name : string;
  pipeline_version : string;
  start_time : Z;
  end_time : option Z;
  status : RunStatus;
  metadata : gmap string pyval;
  final_output : option (gmap string pyval)
}.

(** [RunModel(pipeline_name=..., pipeline_version=..., metadata=...)]:
    the status starts as [RUNNING]. *)
Definition RunModel_init (uuid : nat) (now : Z) (name version : string)
    (md : gmap string pyval) : RunModel :=
  mkRunModel uuid name version now None RUNNING md None.

(** [RunModel.mark_complete(status, final_output=None)]. *)
Definition mark_complete (now : Z) (st : RunStatus)
    (out : option (gmap string pyval)) (r : RunModel) : RunModel :=
  mkRunModel (id r) (pipeline_name r) (pipeline_version r) (start_time r)
    (Some now) st (metadata r)
    (match out with Some o => Some o | None => final_output r end).

Definition set_run_metadata (m : gmap string pyval) (r : RunModel) : RunModel :=
  mkRunModel (id r) (pipeline_name r) (pipeline_version r) (start_time r)
    (end_time r) (status r) m (final_output r).

Definition set_final_output (o : option (gmap string pyval)) (r : RunModel) : RunModel :=
  mkRunModel (id r) (pipeline_name r) (pipeline_version r) (start_time r)
    (end_time r) (status r) (metadata r) o.

(** [sorted(l)] on integers (insertion sort; the order of equal integers
    cannot be observed). *)
Fixpoint insert_sorted (x : Z) (l : list Z) : list Z :=
  match l with
  | [] => [x]
  | y :: l' => if x <=? y then x :: l else y :: insert_sorted x l'
  end.

Definition sorted (l : list Z) : list Z := foldr insert_sorted [] l.

(** [IngestPayload]: the run and its steps, as handed to the client. *)
Record IngestPayload : Type := mkPayload {
  run : RunModel;
  steps : list StepModel
}.

(** The field validator [IngestPayload.validate_steps]. *)
Definition validate_steps (l : list StepModel) : result (list StepModel) :=
  match l with
  | [] => Ok l
  | _ =>
      let sequences := map sequence l in
      if bool_decide (sequences ≠ sorted sequences)
      then Raise (ValidationError "Steps must be in sequential order by sequence number")
      else Ok l
  end.

(** [IngestPayload(run=..., steps=...)]. *)
Definition IngestPayload_init (r : RunModel) (l : list StepModel)
  : result IngestPayload :=
  match validate_steps l with
  | Ok l' => Ok (mkPayload r l')
  | Raise e => Raise e
  end.

End Models.

(** ** Candidate sampling ([xray/sampling.py]) *)

Module Sampling.

(** What [candidate.get(strata_key)] gives the grouping loop: nothing to
    group by (the field is missing or holds [None]), a hashable value, or a
    value that cannot be a dictionary key (a list, a dictionary), with the
    name of its type. *)
Inductive field_value (Key : Type) : Type :=
| NoValue
| Hashable (key : Key)
| Unhashable (type_name : string).
Arguments NoValue {Key}.
Arguments Hashable {Key} key.
Arguments Unhashable {Key} type_name.

Definition is_unhashable {Key} (v : field_value Key) : bool :=
  match v with Unhashable _ => true | _ => false end.

Section Strategies.
(** A candidate is opaque to the samplers, except for [candidate.get(key)]
    in the stratified one. Two hashable values are the same [Key] when they
    are the same dictionary key. *)
Context {Cand Key : Type} `{EqDecision Key}.
Context (cand_get : Cand -> string -> field_value Key).

(** [sample_candidates(candidates, max_full_capture, sample_size)];
    [cfg_max] is [get_config().max_candidates_full_capture]. *)
Definition sample_candidates (g : rng) (cfg_max : Z) (candidates : list Cand)
    (max_full_capture : option Z) (sample_size : Z)
  : result (list Cand) * rng :=
  let max_full_capture :=
    match max_full_capture with None => cfg_max | Some m => m end in
  let total := len candidates in
  if total <=? max_full_capture then (Ok candidates, g)
  else
    let sampled := [] in
    let first_n := Z.min sample_size total in
    let sampled := sampled ++ py_slice candidates None (Some first_n) in
    let last_n := Z.min sample_size total in
    let sampled :=
      if sample_size <? total
      then sampled ++ py_slice candidates (Some (- last_n)) None
      else sampled in
    if sample_size * 2 <? total then
      let middle := py_slice candidates (Some sample_size) (Some (- sample_size)) in
      if sample_size <? len middle then
        match random_sample g middle (Z.min sample_size (len middle)) with
        | (Ok random_sample, g') => (Ok (sampled ++ random_sample), g')
        | (Raise e, g') => (Raise e, g')
        end
      else (Ok (sampled ++ middle), g)
    else (Ok sampled, g).

(** [sample_candidates_head_tail]. *)
Definition sample_candidates_head_tail (candidates : list Cand)
    (head_size tail_size : Z) : list Cand :=
  let total := len candidates in
  if total <=? head_size + tail_size then candidates
  else
    let head := py_slice candidates None (Some head_size) in
    let tail := py_slice candidates (Some (- tail_size)) None in
    head ++ tail.

(** [sample_candidates_random]. *)
Definition sample_candidates_random (g : rng) (candidates : list Cand)
    (sample_size : Z) : result (list Cand) * rng :=
  let total := len candidates in
  if total <=? sample_size then (Ok candidates, g)
  else random_sample g candidates sample_size.

(** The dictionary [strata], in insertion order. [strata_append] is the
    body of the grouping loop for a key that is not [None]: a new key gets
    an empty list first, then the candidate is appended to the key's list. *)
Fixpoint strata_append (key : Key) (c : Cand) (strata : list (Key * list Cand))
  : list (Key * list Cand) :=
  match strata with
  | [] => [(key, [c])]
  | (k, grp) :: rest =>
      if decide (k = key) then (k, grp ++ [c]) :: rest
      else (k, grp) :: strata_append key c rest
  end.

(** The grouping loop. Testing [key not in strata] hashes the key, which
    raises [TypeError] for a value that is not hashable. *)
Fixpoint group_loop (candidates : list Cand) (strata_key : string)
    (strata : list (Key * list Cand)) : result (list (Key * list Cand)) :=
  match candidates with
  | [] => Ok strata
  | candidate :: rest =>
      match cand_get candidate strata_key with
      | NoValue => group_loop rest strata_key strata
      | Hashable key =>
          group_loop rest strata_key (strata_append key candidate strata)
      | Unhashable type_name =>
          Raise (TypeError ("unhashable type: '" +:+ type_name +:+ "'"))
      end
  end.

Definition group_by_stratum (candidates : list Cand) (strata_key : string)
  : result (list (Key * list Cand)) :=
  group_loop candidates strata_key [].

(** The loop over [strata.values()]. *)
Fixpoint sample_strata (g : rng) (groups : list (list Cand))
    (samples_per_stratum : Z) (sampled : list Cand)
  : result (list Cand) * rng :=
  match groups with
  | [] => (Ok sampled, g)
  | stratum_candidates :: rest =>
      if len stratum_candidates <=? samples_per_stratum
      then sample_strata g rest samples_per_stratum (sampled ++ stratum_candidates)
      else
        match random_sample g stratum_candidates samples_per_stratum with
        | (Ok xs, g') => sample_strata g' rest samples_per_stratum (sampled ++ xs)
        | (Raise e, g') => (Raise e, g')
        end
  end.

(** [sample_candidates_stratified]. *)
Definition sample_candidates_stratified (g : rng) (candidates : list Cand)
    (strata_key : string) (samples_per_stratum : Z)
  : result (list Cand) * rng :=
  match group_by_stratum candidates strata_key with
  | Ok strata => sample_strata g (map snd strata) samples_per_stratum []
  | Raise e => (Raise e, g)
  end.

(** [should_sample]. *)
Definition should_sample (cfg_max : Z) (candidates : list Cand)
    (max_full_capture : option Z) : bool :=
  let max_full_capture :=
    match max_full_capture with None => cfg_max | Some m => m end in
  max_full_capture <? len candidates.

(** *** Vocabulary of the stratified property *)

(** The group value of a candidate: the hashable value of its grouping
    field, if it has one. *)
Definition group_key_of (c : Cand) (strata_key : string) : option Key :=
  match cand_get c strata_key with
  | Hashable key => Some key
  | _ => None
  end.

(** No candidate of the list holds an unhashable value in the field. *)
Definition all_hashable (strata_key : string) (l : list Cand) : Prop :=
  Forall (fun c => is_unhashable (cand_get c strata_key) = false) l.

(** The members of a list whose grouping field holds [key]. *)
Definition in_group (strata_key : string) (key : Key) (c : Cand) : bool :=
  bool_decide (group_key_of c strata_key = Some key).

Definition group_size (strata_key : string) (key : Key) (l : list Cand) : Z :=
  len (filter (fun c => in_group strata_key key c = true) l).

(** The distinct group values of a list, by first appearance. *)
Definition add_distinct (acc : list Key) (k : Key) : list Key :=
  if bool_decide (k ∈ acc) then acc else acc ++ [k].

Definition group_values (strata_key : string) (l : list Cand) : list Key :=
  foldl add_distinct [] (omap (fun c => group_key_of c strata_key) l).

(** The dictionary that the grouping loop builds from candidates whose
    grouping values are all hashable. *)
Definition grouped (l : list Cand) (strata_key : string) : list (Key * list Cand) :=
  foldl (fun strata candidate =>
           match group_key_of candidate strata_key with
           | Some key => strata_append key candidate strata
           | None => strata
           end) [] l.

Definition sum_Z (l : list Z) : Z := foldr Z.add 0 l.

(** Every list of [strata] holds candidates of its own key only. *)
Definition keyed (strata_key : string) (strata : list (Key * list Cand)) : Prop :=
  Forall (fun e => Forall (fun c => in_group strata_key (fst e) c = true) (snd e))
    strata.

(** What the sampling loop takes from one entry of [strata] under the cap
    [K]: [min(len, K)] candidates of the entry, all of them when the entry
    has at most [K]. *)
Definition drawn (K : Z) (e : Key * list Cand) (o : list Cand) : Prop :=
  len o = Z.min (len (snd e)) K
  /\ (len (snd e) <= K -> o = snd e)
  /\ forall P : Cand -> Prop, Forall P (snd e) -> Forall P o.

(** [strata.get(key, [])]. *)
Fixpoint strata_get (key : Key) (strata : list (Key * list Cand)) : list Cand :=
  match strata with
  | [] => []
  | (k, grp) :: rest => if decide (k = key) then grp else strata_get key rest
  end.
End Strategies.

End Sampling.

(** ** Configuration ([xray/config.py]) *)

Module Config.

Inductive FallbackMode : Type := SILENT | LOG | RAISE.

(** [FallbackMode] is a string enumeration: a member compares equal to its
    value, and is stored here as that string. *)
Definition FallbackMode_value (m : FallbackMode) : string :=
  match m with
  | SILENT => "silent"
  | LOG => "log"
  | RAISE => "raise"
  end.

(** The declared fields of [XRayConfig], in declaration order. *)
Definition fields : list string :=
  [ "api_url"; "enabled"; "fallback_mode"; "fallback_log_path";
    "timeout_seconds"; "async_mode"; "max_candidates_full_capture";
    "sample_size_large"; "sample_size_medium"; "verbose" ].

(** An [XRayConfig] object: the value of each attribute. Assignment does not
    validate, so an attribute can hold any value. *)
Abbreviation XRayConfig := (gmap string pyval).

(** [getattr(config, name)] for a declared field. *)
Definition getattr (c : XRayConfig) (name : string) : pyval :=
  default PyNone (c !! name).

(** [kwargs[name]] of a keyword dictionary kept in call order. *)
Fixpoint kwargs_get (name : string) (kwargs : list (string * pyval)) : option pyval :=
  match kwargs with
  | [] => None
  | (k, v) :: rest => if decide (k = name) then Some v else kwargs_get name rest
  end.

(** [s.rstrip("/")]. *)
Fixpoint rstrip_slash (s : string) : string :=
  match s with
  | EmptyString => EmptyString
  | String c rest =>
      match rstrip_slash rest with
      | EmptyString =>
          if Ascii.eqb c "/"%char then EmptyString else String c EmptyString
      | r => String c r
      end
  end.

(** The field validator [XRayConfig.validate_api_url]. *)
Definition validate_api_url (v : string) : string := rstrip_slash v.

(** The names that the body of the class [XRayConfig] defines besides its
    fields, and the attributes that every object has from [object]. *)
Definition declared_in_class : list string := ["validate_api_url"; "model_config"].

Definition object_attributes : list string :=
  [ "__class__"; "__delattr__"; "__dir__"; "__doc__"; "__eq__"; "__format__";
    "__ge__"; "__getattribute__"; "__gt__"; "__hash__"; "__init__";
    "__init_subclass__"; "__le__"; "__lt__"; "__ne__"; "__new__"; "__reduce__";
    "__reduce_ex__"; "__repr__"; "__setattr__"; "__sizeof__"; "__str__";
    "__subclasshook__" ].

(** The field validators of the class, run on the value that pydantic's own
    validation of the field returned: [validate_api_url] for [api_url]. *)
Definition run_field_validator (f : string) (v : pyval) : result pyval :=
  if bool_decide (f = "api_url") then
    match v with
    | PyStr s => Ok (PyStr (validate_api_url s))
    | _ => Raise (AttributeError ("'" +:+ type_name v
                                  +:+ "' object has no attribute 'rstrip'"))
    end
  else Ok v.

Section Construction.
(** What the library does for the class. [validate]: pydantic's own
    validation of the value given for a field when the object is
    constructed ([None]: the value is rejected; otherwise the validated,
    possibly converted value). [field_default]: the default of each field,
    read from the environment when the module is loaded. [inherited]: the
    attributes that an object has from pydantic's [BaseModel].
    [assign_other]: what [BaseModel.__setattr__] does with a name that is
    not a declared field. *)
Context (validate : string -> pyval -> option pyval).
Context (field_default : string -> pyval).
Context (inherited : string -> bool).
Context (assign_other : string -> pyval -> XRayConfig -> result XRayConfig).

(** [hasattr(_config, key)]: the attributes of a configuration object are
    its fields, what the class body defines, and what it inherits. *)
Definition hasattr (c : XRayConfig) (key : string) : bool :=
  bool_decide (key ∈ fields)
  || bool_decide (key ∈ declared_in_class)
  || bool_decide (key ∈ object_attributes)
  || inherited key.

(** Assignment to a declared field stores the value as it is (the class
    does not ask for validation on assignment). *)
Definition assign (c : XRayConfig) (key : string) (value : pyval) : XRayConfig :=
  <[key := value]> c.

(** [setattr(_config, key, value)]. *)
Definition setattr (c : XRayConfig) (key : string) (value : pyval)
  : result XRayConfig :=
  if bool_decide (key ∈ fields) then Ok (assign c key value)
  else assign_other key value c.

(** The value that the constructor stores for a field given as [v]. *)
Definition validate_field (f : string) (v : pyval) : result pyval :=
  match validate f v with
  | Some v' => run_field_validator f v'
  | None => Raise (ValidationError "validation error for XRayConfig")
  end.

Fixpoint init_fields (fs : list string) (kwargs : list (string * pyval))
    (obj : XRayConfig) : result XRayConfig :=
  match fs with
  | [] => Ok obj
  | f :: fs' =>
      match kwargs_get f kwargs with
      | None => init_fields fs' kwargs (<[f := field_default f]> obj)
      | Some v =>
          match validate_field f v with
          | Ok v' => init_fields fs' kwargs (<[f := v']> obj)
          | Raise e => Raise e
          end
      end
  end.

(** [XRayConfig] called with the keywords [kwargs]: keywords that name no field are ignored. *)
Definition XRayConfig_init (kwargs : list (string * pyval)) : result XRayConfig :=
  init_fields fields kwargs ∅.

(** [get_config()], on the module variable [_config]. *)
Definition get_config (_config : option XRayConfig)
  : result XRayConfig * option XRayConfig :=
  match _config with
  | None =>
      match XRayConfig_init [] with
      | Ok c => (Ok c, Some c)
      | Raise e => (Raise e, None)
      end
  | Some c => (Ok c, Some c)
  end.

(** The update loop of [configure], on the existing object. *)
Fixpoint configure_update (kwargs : list (string * pyval)) (c : XRayConfig)
  : result XRayConfig * XRayConfig :=
  match kwargs with
  | [] => (Ok c, c)
  | (key, value) :: rest =>
      if hasattr c key then
        match setattr c key value with
        | Ok c' => configure_update rest c'
        | Raise e => (Raise e, c)
        end
      else (Raise (ValueError ("Unknown configuration option: " +:+ key)), c)
  end.

(** [configure] called with the keywords [kwargs]: the result, and the module variable after. *)
Definition configure (_config : option XRayConfig) (kwargs : list (string * pyval))
  : result XRayConfig * option XRayConfig :=
  match _config with
  | None =>
      match XRayConfig_init kwargs with
      | Ok c => (Ok c, Some c)
      | Raise e => (Raise e, None)
      end
  | Some c =>
      let '(r, c') := configure_update kwargs c in (r, Some c')
  end.
End Construction.

(** [reset_config()]. *)
Definition reset_config (_config : option XRayConfig) : option XRayConfig := None.

(** *** The library, for the values modelled here

    pydantic's validation of a field in its default (lax) mode: a string
    field takes strings only; a flag takes a Boolean, the integers 0 and 1
    and the usual words; the fallback mode takes the value of a member of
    the enumeration; an integer field takes an integer, a Boolean or a
    string of digits, the timeout an integer or a string of digits; then
    the declared bounds ([gt=0], and [le=60] for the timeout) apply. *)
Definition lower_ascii (c : ascii) : ascii :=
  let n := nat_of_ascii c in
  if ((65 <=? n) && (n <=? 90))%nat then ascii_of_nat (n + 32) else c.

Fixpoint lower (s : string) : string :=
  match s with
  | EmptyString => EmptyString
  | String c rest => String (lower_ascii c) (lower rest)
  end.

Fixpoint digits_value (s : string) (acc : Z) : option Z :=
  match s with
  | EmptyString => Some acc
  | String c rest =>
      let n := nat_of_ascii c in
      if ((48 <=? n) && (n <=? 57))%nat
      then digits_value rest (10 * acc + Z.of_nat (n - 48))
      else None
  end.

Definition number_of_string (s : string) : option Z :=
  match s with
  | EmptyString => None
  | _ => digits_value s 0
  end.

Definition as_bool (v : pyval) : option bool :=
  match v with
  | PyBool b => Some b
  | PyInt z => if z =? 0 then Some false else if z =? 1 then Some true else None
  | PyStr s =>
      if bool_decide (lower s ∈ ["1"; "on"; "t"; "true"; "y"; "yes"]) then Some true
      else if bool_decide (lower s ∈ ["0"; "off"; "f"; "false"; "n"; "no"])
      then Some false
      else None
  | _ => None
  end.

Definition as_int (v : pyval) : option Z :=
  match v with
  | PyInt z => Some z
  | PyBool b => Some (if b then 1 else 0)
  | PyStr s => number_of_string s
  | _ => None
  end.

Definition as_number (v : pyval) : option Z :=
  match v with
  | PyInt z => Some z
  | PyStr s => number_of_string s
  | _ => None
  end.

Definition declared_validation (f : string) (v : pyval) : option pyval :=
  if bool_decide (f ∈ ["api_url"; "fallback_log_path"]) then
    match v with PyStr _ => Some v | _ => None end
  else if bool_decide (f ∈ ["enabled"; "async_mode"; "verbose"]) then
    match as_bool v with Some b => Some (PyBool b) | None => None end
  else if bool_decide (f = "fallback_mode") then
    match v with
    | PyStr s => if bool_decide (s ∈ ["silent"; "log"; "raise"]) then Some v else None
    | _ => None
    end
  else if bool_decide (f = "timeout_seconds") then
    match as_number v with
    | Some z => if (0 <? z) && (z <=? 60) then Some (PyInt z) else None
    | None => None
    end
  else if bool_decide (f ∈ ["max_candidates_full_capture";
                            "sample_size_large"; "sample_size_medium"]) then
    match as_int v with
    | Some z => if 0 <? z then Some (PyInt z) else None
    | None => None
    end
  else Some v.

(** The defaults with an empty environment. *)
Definition builtin_default (f : string) : pyval :=
  if bool_decide (f = "api_url") then PyStr "http://localhost:8000"
  else if bool_decide (f = "enabled") then PyBool true
  else if bool_decide (f = "fallback_mode") then PyStr "silent"
  else if bool_decide (f = "fallback_log_path") then PyStr ".xray/failed_traces/"
  else if bool_decide (f = "timeout_seconds") then PyInt 5
  else if bool_decide (f = "async_mode") then PyBool true
  else if bool_decide (f = "max_candidates_full_capture") then PyInt 100
  else if bool_decide (f = "sample_size_large") then PyInt 50
  else if bool_decide (f = "sample_size_medium") then PyInt 100
  else if bool_decide (f = "verbose") then PyBool false
  else PyNone.

(** The public attributes of pydantic's [BaseModel], and its private
    bookkeeping. *)
Definition BaseModel_attributes : list string :=
  [ "model_computed_fields"; "model_construct"; "model_copy"; "model_dump";
    "model_dump_json"; "model_extra"; "model_fields"; "model_fields_set";
    "model_json_schema"; "model_parametrized_name"; "model_post_init";
    "model_rebuild"; "model_validate"; "model_validate_json";
    "model_validate_strings"; "construct"; "copy"; "dict"; "from_orm"; "json";
    "parse_file"; "parse_obj"; "parse_raw"; "schema"; "schema_json";
    "update_forward_refs"; "validate"; "_abc_impl"; "__dict__"; "__module__";
    "__annotations__"; "__fields__"; "__fields_set__"; "__iter__"; "__copy__";
    "__deepcopy__"; "__getattr__"; "__getstate__"; "__setstate__";
    "__class_vars__"; "__private_attributes__"; "__signature__";
    "__pydantic_complete__"; "__pydantic_core_schema__";
    "__pydantic_decorators__"; "__pydantic_extra__";
    "__pydantic_fields_set__"; "__pydantic_private__";
    "__pydantic_serializer__"; "__pydantic_validator__" ].

Definition BaseModel_attribute (name : string) : bool :=
  bool_decide (name ∈ BaseModel_attributes).

Definition starts_with_underscore (name : string) : bool :=
  match name with
  | String c _ => Ascii.eqb c "_"%char
  | EmptyString => false
  end.

Definition quoted (s : string) : string :=
  String "034"%char (s +:+ String "034"%char EmptyString).

(** [BaseModel.__setattr__] for a name that is no field: a name with a
    leading underscore is set on the object itself; any other name is
    refused. *)
Definition BaseModel_assign (key : string) (value : pyval) (c : XRayConfig)
  : result XRayConfig :=
  if starts_with_underscore key then Ok (<[key := value]> c)
  else Raise (ValueError (quoted "XRayConfig" +:+ " object has no field "
                          +:+ quoted key)).

End Config.

(** ** Delivery client ([xray/client.py]) *)

Module Client.
Import Models Config.

(** What the transport did with one [httpx.post]: a response with its
    status code, or an exception (timeout, connection failure, any other). *)
Inductive http_outcome : Type :=
| Response (status_code : Z)
| HttpError (e : exn).

(** The surroundings of one delivery: the outcome of the request if one is
    issued, whether the fallback file can be written, and the clock. *)
Record Net : Type := mkNet {
  post : http_outcome;
  can_write : bool;
  clock : Z
}.

(** What deliveries have done so far: the requests issued, the fallback
    files written (time stamp and bundle), the background threads started. *)
Record World : Type := mkWorld {
  http_posts : list IngestPayload;
  log_files : list (Z * IngestPayload);
  threads : list IngestPayload
}.

Definition no_deliveries : World := mkWorld [] [] [].

(** [mode == FallbackMode.X] on the stored attribute. *)
Definition mode_is (v : pyval) (m : FallbackMode) : bool :=
  match v with
  | PyStr s => String.eqb s (FallbackMode_value m)
  | _ => false
  end.

Definition url_text (v : pyval) : string :=
  match v with PyStr s => s | _ => "" end.

(** [XRayClient._write_to_log]. *)
Definition _write_to_log (config : XRayConfig) (net : Net) (w : World)
    (payload : IngestPayload) : result bool * World :=
  if can_write net
  then (Ok true,
        mkWorld (http_posts w) (log_files w ++ [(clock net, payload)]) (threads w))
  else (Ok false, w).

(** [XRayClient._handle_failure]. *)
Definition _handle_failure (config : XRayConfig) (net : Net) (w : World)
    (payload : IngestPayload) (exception : option exn) : result bool * World :=
  let mode := getattr config "fallback_mode" in
  if mode_is mode SILENT then (Ok false, w)
  else if mode_is mode LOG then _write_to_log config net w payload
  else if mode_is mode RAISE then
    match exception with
    | Some e => (Raise e, w)
    | None =>
        (Raise (RuntimeError ("Failed to send trace to X-Ray API at "
                              +:+ url_text (getattr config "api_url"))), w)
    end
  else (Ok false, w).

(** [XRayClient.send]. The three [except] clauses differ in the text they
    log only. The call of [_handle_failure] for a response other than 200
    and 201 stands inside the [try] block: what it raises is caught by the
    last [except] clause, which calls [_handle_failure] again with the
    exception caught. *)
Definition send (config : XRayConfig) (net : Net) (w : World)
    (payload : IngestPayload) : result bool * World :=
  if negb (truthy (getattr config "enabled")) then (Ok true, w)
  else
    let w1 := mkWorld (http_posts w ++ [payload]) (log_files w) (threads w) in
    match post net with
    | Response status_code =>
        if (status_code =? 200) || (status_code =? 201) then (Ok true, w1)
        else
          match _handle_failure config net w1 payload None with
          | (Raise e, w2) => _handle_failure config net w2 payload (Some e)
          | (Ok b, w2) => (Ok b, w2)
          end
    | HttpError e => _handle_failure config net w1 payload (Some e)
    end.

(** [XRayClient.send_async]: the bundle is handed to a new daemon thread. *)
Definition send_async (config : XRayConfig) (w : World) (payload : IngestPayload)
  : World :=
  mkWorld (http_posts w) (log_files w) (threads w ++ [payload]).

(** [send_trace]; [config] is the object [get_config()] returns. *)
Definition send_trace (config : XRayConfig) (net : Net) (w : World)
    (payload : IngestPayload) : result bool * World :=
  if truthy (getattr config "async_mode")
  then (Ok true, send_async config w payload)
  else send config net w payload.

End Client.

(** ** Run and step scopes ([xray/context.py]) *)

Module Context.
Import Models Config Client.

(** A [RunContext] object. [steps] holds references: each entry is the
    [step_model] of the step scope that appended it, and stays shared with
    that scope. *)
Record RunContext : Type := mkRunContext {
  run_model : RunModel;
  steps : list nat;
  auto_send : bool;
  _sequence_counter : Z;
  _previous_run_context : option nat
}.

(** A [StepContext] object. *)
Record StepContext : Type := mkStepContext {
  run_context : nat;
  step_model : StepModel;
  _previous_step_context : option nat
}.

#[global] Instance RunContext_inhabited : Inhabited RunContext :=
  populate (mkRunContext (RunModel_init 0 0 "" "" ∅) [] false 0 None).

#[global] Instance StepContext_inhabited : Inhabited StepContext :=
  populate (mkStepContext 0 (StepModel_init 0 "" CUSTOM 0) None).

(** The objects of one execution flow, its two context variables, and what
    its deliveries have done. *)
Record Store : Type := mkStore {
  runs : gmap nat RunContext;
  step_ctxs : gmap nat StepContext;
  _current_run_context : option nat;
  _current_step_context : option nat;
  world : World
}.

Definition empty_store : Store := mkStore ∅ ∅ None None no_deliveries.

Definition the_run (σ : Store) (r : nat) : RunContext := runs σ !!! r.
Definition the_step (σ : Store) (s : nat) : StepContext := step_ctxs σ !!! s.

Definition put_run (r : nat) (x : RunContext) (σ : Store) : Store :=
  mkStore (<[r := x]> (runs σ)) (step_ctxs σ)
    (_current_run_context σ) (_current_step_context σ) (world σ).

Definition put_step (s : nat) (x : StepContext) (σ : Store) : Store :=
  mkStore (runs σ) (<[s := x]> (step_ctxs σ))
    (_current_run_context σ) (_current_step_context σ) (world σ).

Definition set_current_run (v : option nat) (σ : Store) : Store :=
  mkStore (runs σ) (step_ctxs σ) v (_current_step_context σ) (world σ).

Definition set_current_step (v : option nat) (σ : Store) : Store :=
  mkStore (runs σ) (step_ctxs σ) (_current_run_context σ) v (world σ).

Definition set_world (w : World) (σ : Store) : Store :=
  mkStore (runs σ) (step_ctxs σ)
    (_current_run_context σ) (_current_step_context σ) w.

(** [get_current_run()] and [get_current_step()]. *)
Definition get_current_run (σ : Store) : option nat := _current_run_context σ.
Definition get_current_step (σ : Store) : option nat := _current_step_context σ.

(** The step models a run has collected, in list order. *)
Definition collected_steps (σ : Store) (r : nat) : list StepModel :=
  map (fun s => step_model (the_step σ s)) (steps (the_run σ r)).

(** [RunContext(pipeline_name, pipeline_version, metadata, auto_send)]:
    the new object and the store that holds it. *)
Definition RunContext_init (uuid : nat) (now : Z) (name version : string)
    (md : option (gmap string pyval)) (auto : bool) (σ : Store) : nat * Store :=
  let r := fresh (dom (runs σ)) in
  let obj :=
    mkRunContext (RunModel_init uuid now name version (default ∅ md))
      [] auto 0 None in
  (r, put_run r obj σ).

(** [RunContext.__enter__]. *)
Definition run_enter (r : nat) (σ : Store) : Store :=
  let self := the_run σ r in
  let self :=
    mkRunContext (run_model self) (steps self) (auto_send self)
      (_sequence_counter self) (_current_run_context σ) in
  set_current_run (Some r) (put_run r self σ).

(** [RunContext.__exit__(exc_type, exc_val, exc_tb)]; [exc] is the
    exception that is leaving the block, [config] the object [get_config()]
    returns, [now] the time [mark_complete] reads. The result is the
    returned value, or the exception raised from within the method. *)
Definition run_exit (config : XRayConfig) (net : Net) (now : Z) (r : nat)
    (exc : option exn) (σ : Store) : result bool * Store :=
  let status := match exc with None => SUCCESS | Some _ => FAILURE end in
  let self := the_run σ r in
  let self :=
    mkRunContext (mark_complete now status None (run_model self)) (steps self)
      (auto_send self) (_sequence_counter self) (_previous_run_context self) in
  let σ1 := put_run r self σ in
  let sent :=
    if auto_send self then
      match IngestPayload_init (run_model self) (collected_steps σ1 r) with
      | Raise e => (Raise e, σ1)
      | Ok payload =>
          let '(res, w) := send_trace config net (world σ1) payload in
          (res, set_world w σ1)
      end
    else (Ok true, σ1) in
  match sent with
  | (Raise e, σ2) => (Raise e, σ2)
  | (Ok _, σ2) => (Ok false, set_current_run (_previous_run_context self) σ2)
  end.

(** [RunContext.step(step_name, step_type)]: the new [StepContext]. *)
Definition step (uuid : nat) (r : nat) (name : string) (ty : StepType)
    (σ : Store) : nat * Store :=
  let self := the_run σ r in
  let s := fresh (dom (step_ctxs σ)) in
  let step_context :=
    mkStepContext r (StepModel_init uuid name ty (_sequence_counter self)) None in
  let self :=
    mkRunContext (run_model self) (steps self) (auto_send self)
      (_sequence_counter self + 1) (_previous_run_context self) in
  (s, put_run r self (put_step s step_context σ)).

(** [RunContext.add_step(step_model)], for the model of step scope [s]. *)
Definition add_step (r : nat) (s : nat) (σ : Store) : Store :=
  let self := the_run σ r in
  let sc := the_step σ s in
  let sc :=
    mkStepContext (run_context sc)
      (set_run_id (Some (id (run_model self))) (step_model sc))
      (_previous_step_context sc) in
  let self :=
    mkRunContext (run_model self) (steps self ++ [s]) (auto_send self)
      (_sequence_counter self) (_previous_run_context self) in
  put_run r self (put_step s sc σ).

(** [RunContext.set_metadata] and [RunContext.set_final_output]. *)
Definition set_metadata (r : nat) (key : string) (value : pyval) (σ : Store) : Store :=
  let self := the_run σ r in
  let m := run_model self in
  put_run r
    (mkRunContext (set_run_metadata (<[key := value]> (metadata m)) m)
       (steps self) (auto_send self) (_sequence_counter self)
       (_previous_run_context self)) σ.

Definition set_final_output (r : nat) (output : gmap string pyval) (σ : Store) : Store :=
  let self := the_run σ r in
  put_run r
    (mkRunContext (Models.set_final_output (Some output) (run_model self))
       (steps self) (auto_send self) (_sequence_counter self)
       (_previous_run_context self)) σ.

Definition update_step_model (f : StepModel -> StepModel) (s : nat) (σ : Store)
  : Store :=
  let sc := the_step σ s in
  put_step s
    (mkStepContext (run_context sc) (f (step_model sc)) (_previous_step_context sc)) σ.

(** [StepContext.__enter__]. *)
Definition step_enter (now : Z) (s : nat) (σ : Store) : Store :=
  let σ1 := update_step_model (set_start_time (Some now)) s σ in
  let sc := the_step σ1 s in
  let sc :=
    mkStepContext (run_context sc) (step_model sc) (_current_step_context σ1) in
  set_current_step (Some s) (put_step s sc σ1).

(** The entry [StepContext.__exit__] writes under ["exception"]. *)
Definition exception_entry (e : exn) : pyval :=
  PyDict [("type", PyStr (exn_type e)); ("message", PyStr (exn_message e))].

(** [StepContext.__exit__(exc_type, exc_val, exc_tb)]. *)
Definition step_exit (now : Z) (s : nat) (exc : option exn) (σ : Store)
  : result bool * Store :=
  let σ1 := update_step_model (set_end_time (Some now)) s σ in
  let σ2 :=
    match exc with
    | Some e =>
        update_step_model
          (fun m => set_step_metadata
                      (<["exception" := exception_entry e]> (step_metadata m)) m)
          s σ1
    | None => σ1
    end in
  let self := the_step σ2 s in
  let σ3 := add_step (run_context self) s σ2 in
  (Ok false, set_current_step (_previous_step_context self) σ3).

(** The setters of a step scope that the body of a block calls. *)
Inductive step_call : Type :=
| call_set_reasoning (text : string)
| call_add_metadata (key : string) (value : pyval)
| call_update_metadata (md : gmap string pyval)
| call_set_candidates (candidates_in candidates_out : Z).

(** [StepContext.set_reasoning], [add_metadata], [update_metadata], and
    [set_candidates] without candidate data. *)
Definition do_step_call (s : nat) (c : step_call) (σ : Store) : Store :=
  match c with
  | call_set_reasoning text => update_step_model (set_reasoning text) s σ
  | call_add_metadata key value =>
      update_step_model
        (fun m => set_step_metadata (<[key := value]> (step_metadata m)) m) s σ
  | call_update_metadata md =>
      update_step_model
        (fun m => set_step_metadata (md ∪ step_metadata m) m) s σ
  | call_set_candidates i o =>
      update_step_model (set_counts (Some i) (Some o)) s σ
  end.

(** *** The [with] statement *)

(** How a block ends. *)
Inductive outcome : Type :=
| Normal
| Raised (e : exn).

Definition escaping (o : outcome) : option exn :=
  match o with Normal => None | Raised e => Some e end.

(** What leaves a [with] statement whose block ended with [body] and whose
    [__exit__] gave [exit_result]: an exception raised by [__exit__]
    replaces the one in flight; a true return value swallows it. *)
Definition with_exit (body : outcome) (exit_result : result bool) : outcome :=
  match exit_result with
  | Raise e' => Raised e'
  | Ok suppress =>
      match body with
      | Normal => Normal
      | Raised e => if suppress then Normal else Raised e
      end
  end.

(** One step used the way the package documents it,
    [with run.step(name, ty) as step: <setter calls>; <maybe raise>]. *)
Record step_block : Type := mkStepBlock {
  sb_uuid : nat;
  sb_name : string;
  sb_type : StepType;
  sb_entered_at : Z;
  sb_calls : list step_call;
  sb_ends : outcome;
  sb_left_at : Z
}.

Definition with_step (r : nat) (b : step_block) (σ : Store) : outcome * Store :=
  let '(s, σ1) := step (sb_uuid b) r (sb_name b) (sb_type b) σ in
  let σ2 := step_enter (sb_entered_at b) s σ1 in
  let σ3 := foldl (fun σ c => do_step_call s c σ) σ2 (sb_calls b) in
  let '(res, σ4) := step_exit (sb_left_at b) s (escaping (sb_ends b)) σ3 in
  (with_exit (sb_ends b) res, σ4).

(** Step blocks one after the other in the body of a run scope. *)
Definition with_steps (r : nat) (bs : list step_block) (σ : Store) : Store :=
  foldl (fun σ b => snd (with_step r b σ)) σ bs.

End Context.

(** ** Auxiliary definitions and concrete scenarios *)

Import Models Config Client Context Sampling.

(** A step that went from 4 candidates to 1, and one that received none. *)
Definition step_4_to_1 : StepModel :=
  set_counts (Some 4) (Some 1) (StepModel_init 7 "filter" FILTER 0).

Definition step_0_to_0 : StepModel :=
  set_counts (Some 0) (Some 0) (StepModel_init 8 "search" SEARCH 1).

(** What [run_exit] does, by the way the delivery inside it ends. *)
Definition exit_run_object (now : Z) (exc : option exn) (x : RunContext)
  : RunContext :=
  mkRunContext
    (mark_complete now (match exc with None => SUCCESS | Some _ => FAILURE end)
       None (run_model x))
    (steps x) (auto_send x) (_sequence_counter x) (_previous_run_context x).

(** A run completed with [SUCCESS]. *)
Definition finished_run : RunModel :=
  mark_complete 10 SUCCESS None (RunModel_init 1 0 "pipeline" "1.0.0" ∅).

(** The default configuration with tracing switched off and blocking
    delivery in raise mode, and a transport that refuses connections. *)
Definition disabled_config : XRayConfig :=
  <["enabled" := PyBool false]>
    (<["fallback_mode" := PyStr "raise"]>
       (<["async_mode" := PyBool false]>
          (list_to_map (map (fun f => (f, builtin_default f)) fields)))).

Definition refused : exn := mk_exn "ConnectError" "connection refused".

Definition unreachable : Net := mkNet (HttpError refused) true 100.

Definition empty_bundle : IngestPayload :=
  mkPayload (RunModel_init 1 0 "pipeline" "1.0.0" ∅) [].


(** Whether the request of a delivery fails: any response other than 200
    and 201, and any exception of the transport. *)
Definition post_failed (o : http_outcome) : bool :=
  match o with
  | Response code => negb ((code =? 200) || (code =? 201))
  | HttpError _ => true
  end.

(** The one situation in which [send_trace] raises: tracing enabled,
    blocking delivery, fallback mode [raise], and a failed request. *)
Definition delivery_raises (config : XRayConfig) (net : Net) : bool :=
  truthy (getattr config "enabled")
  && negb (truthy (getattr config "async_mode"))
  && mode_is (getattr config "fallback_mode") RAISE
  && post_failed (post net).

(** The steps a run has collected pass the validator of the bundle. *)
Definition bundle_valid (σ : Store) (r : nat) : Prop :=
  validate_steps (collected_steps σ r) = Ok (collected_steps σ r).

(** The default configuration with blocking delivery in raise mode. *)
Definition raise_config : XRayConfig :=
  <["fallback_mode" := PyStr "raise"]>
    (<["async_mode" := PyBool false]>
       (list_to_map (map (fun f => (f, builtin_default f)) fields))).

(** The default configuration: background delivery, silent fallback. *)
Definition default_config : XRayConfig :=
  list_to_map (map (fun f => (f, builtin_default f)) fields).

(** The exception of the application. *)
Definition app_error : exn := mk_exn "KeyError" "product_id".

(** [with RunContext("A") as a:] entered, from an empty store. *)
Definition run_A : nat := fst (RunContext_init 1 0 "A" "1.0.0" None true empty_store).

Definition inside_A : Store :=
  run_enter run_A (snd (RunContext_init 1 0 "A" "1.0.0" None true empty_store)).

(** [with RunContext("B") as b:] entered inside the block of [A]. *)
Definition run_B : nat := fst (RunContext_init 2 1 "B" "1.0.0" None true inside_A).

Definition inside_B : Store :=
  run_enter run_B (snd (RunContext_init 2 1 "B" "1.0.0" None true inside_A)).

(** [with a.step("score", RANK) as s:] entered inside the block of [A]. *)
Definition step_S : nat := fst (step 11 run_A "score" RANK inside_A).

Definition inside_S : Store :=
  step_enter 2 step_S (snd (step 11 run_A "score" RANK inside_A)).

(** [with a.step("inner", FILTER) as t:] entered inside the block of step
    [S]; then both step scopes left, innermost first. *)
Definition step_T : nat := fst (step 12 run_A "inner" FILTER inside_S).

Definition inside_T : Store :=
  step_enter 3 step_T (snd (step 12 run_A "inner" FILTER inside_S)).

Definition after_nested_steps : Store :=
  snd (step_exit 5 step_S None (snd (step_exit 4 step_T None inside_T))).

(** The sequence numbers of the steps a run has collected, in list order. *)
Definition collected_sequences (σ : Store) (r : nat) : list Z :=
  map sequence (collected_steps σ r).

(** [0, 1, ..., n-1]. *)
Definition upto (n : nat) : list Z := map Z.of_nat (seq 0 n).

(** [σ'] differs from [σ] in the step scope [s] at most, which keeps its
    sequence number, its name and its run. *)
Definition touches_step (s : nat) (σ σ' : Store) : Prop :=
  runs σ' = runs σ
  /\ exists X,
      step_ctxs σ' = <[s := X]> (step_ctxs σ)
      /\ sequence (step_model X) = sequence (step_model (the_step σ s))
      /\ step_name (step_model X) = step_name (step_model (the_step σ s))
      /\ run_context X = run_context (the_step σ s).

(** A run that has handed out one sequence number per name in [names]
    and collected the steps that carry them, in that order. *)
Definition in_sequence (σ : Store) (r : nat) (names : list string) : Prop :=
  _sequence_counter (the_run σ r) = Z.of_nat (length names)
  /\ collected_sequences σ r = upto (length names)
  /\ map step_name (collected_steps σ r) = names
  /\ Forall (fun s => s ∈ dom (step_ctxs σ)) (steps (the_run σ r)).

(** The length [sample_candidates] gives a list of [N] items above the
    threshold, for a sample size [S] of at least one. *)
Definition smart_sample_size (N S : Z) : Z :=
  if N <=? S then N
  else if N <=? 2 * S then 2 * S
  else 2 * S + Z.min S (N - 2 * S).

(** Candidates as dictionaries. The group values are the hashable scalars
    under Python's equality, in which [True] is [1] and [False] is [0];
    a list or a dictionary is not hashable. *)
Inductive group_key : Type :=
| KeyInt (z : Z)
| KeyStr (s : string).

#[global] Instance group_key_eq_dec : EqDecision group_key.
Proof. solve_decision. Defined.

Definition dict_get (c : gmap string pyval) (field : string)
  : field_value group_key :=
  match c !! field with
  | None | Some PyNone => NoValue
  | Some (PyStr s) => Hashable (KeyStr s)
  | Some (PyInt z) => Hashable (KeyInt z)
  | Some (PyBool b) => Hashable (KeyInt (if b then 1 else 0))
  | Some (PyList _) => Unhashable "list"
  | Some (PyDict _) => Unhashable "dict"
  end.

Definition product (sku : Z) (category : pyval) : gmap string pyval :=
  <["id" := PyInt sku]> (<["category" := category]> ∅).

(** Three phone cases, one cable, and one product without a category. *)
Definition catalog : list (gmap string pyval) :=
  [ product 1 (PyStr "cases"); product 2 (PyStr "cables");
    product 3 (PyStr "cases"); product 4 PyNone; product 5 (PyStr "cases") ].

(** The catalog followed by a product filed under a list of categories. *)
Definition tagged_catalog : list (gmap string pyval) :=
  catalog ++ [product 6 (PyList [PyStr "cases"; PyStr "cables"])].

(** The keywords of a call that name a declared field. *)
Definition recognized (kwargs : list (string * pyval)) : list (string * pyval) :=
  filter (fun kv => fst kv ∈ fields) kwargs.

(** The call has a keyword that names no declared field. *)
Definition has_unknown (kwargs : list (string * pyval)) : Prop :=
  exists kv, kv ∈ kwargs /\ fst kv ∉ fields.

(** Every value given for a declared field passes the validation that the
    constructor applies. *)
Definition all_valid (validate : string -> pyval -> option pyval)
    (kwargs : list (string * pyval)) : Prop :=
  Forall (fun kv => fst kv ∈ fields ->
                    exists v', validate_field validate (fst kv) (snd kv) = Ok v')
    kwargs.

(** The assignments of an update to declared fields, in order. *)
Definition apply_options (kwargs : list (string * pyval)) (c : XRayConfig)
  : XRayConfig :=
  foldl (fun c kv => assign c (fst kv) (snd kv)) c kwargs.

(** No keyword of the call names an attribute of the object that is not a
    declared field (a method, a name inherited from the base class). *)
Definition no_other_attribute (inherited : string -> bool) (c : XRayConfig)
    (kwargs : list (string * pyval)) : Prop :=
  Forall (fun kv => fst kv ∉ fields -> hasattr inherited c (fst kv) = false) kwargs.

Definition unknown_option_error (key : string) : exn :=
  ValueError ("Unknown configuration option: " +:+ key).

(** ** Further operations of the five modules *)

(** A list of integers in which no element is smaller than the one before. *)
Fixpoint nondecreasing (l : list Z) : bool :=
  match l with
  | x :: t => match t with
              | y :: _ => (x <=? y) && nondecreasing t
              | [] => true
              end
  | [] => true
  end.

(** [s.endswith("/")]. *)
Fixpoint ends_with_slash (s : string) : bool :=
  match s with
  | EmptyString => false
  | String c EmptyString => Ascii.eqb c "/"%char
  | String _ rest => ends_with_slash rest
  end.

(** [n] slashes. *)
Fixpoint slashes (n : nat) : string :=
  match n with
  | O => EmptyString
  | S n' => String "/"%char (slashes n')
  end.

(** [is_enabled()]: the attribute [enabled] of the object [get_config()]
    returns. *)
Definition is_enabled (validate : string -> pyval -> option pyval)
    (field_default : string -> pyval) (_config : option XRayConfig)
  : result pyval * option XRayConfig :=
  match get_config validate field_default _config with
  | (Ok c, st) => (Ok (getattr c "enabled"), st)
  | (Raise e, st) => (Raise e, st)
  end.

(** [auto_sample_candidates(candidates, strategy)] without further keyword
    arguments: every strategy runs with its default sizes, and the
    stratified one lacks its required [strata_key]. *)
Definition auto_sample_candidates {Cand} (g : rng) (cfg_max : Z)
    (candidates : list Cand) (strategy : string) : result (list Cand) * rng :=
  if String.eqb strategy "smart" then
    sample_candidates g cfg_max candidates None 50
  else if String.eqb strategy "head_tail" then
    (Ok (sample_candidates_head_tail candidates 50 50), g)
  else if String.eqb strategy "random" then
    sample_candidates_random g candidates 100
  else if String.eqb strategy "stratified" then
    (Raise (TypeError
              "sample_candidates_stratified() missing 1 required positional argument: 'strata_key'"),
     g)
  else sample_candidates g cfg_max candidates None 50.

(** A step model together with its slot [candidates_data]. *)
Record StepData (Cand : Type) : Type := mkStepData {
  sd_model : StepModel;
  candidates_data : option (list Cand)
}.
Arguments mkStepData {Cand} _ _.
Arguments sd_model {Cand} _.
Arguments candidates_data {Cand} _.

(** The three entries that record a sampling in the metadata. *)
Definition sampling_metadata (original sampled : Z) (m : gmap string pyval)
  : gmap string pyval :=
  <["sampled_data_count" := PyInt sampled]>
    (<["original_data_count" := PyInt original]>
       (<["sampling_applied" := PyBool true]> m)).

(** [StepModel.set_candidates(candidates_in, candidates_out, data,
    auto_sample)]; [cfg_max] is the threshold of the configuration. *)
Definition set_candidates {Cand} (g : rng) (cfg_max : Z)
    (candidates_in candidates_out : Z) (data : option (list Cand))
    (auto_sample : bool) (self : StepData Cand)
  : result (StepData Cand) * rng :=
  let m := set_counts (Some candidates_in) (Some candidates_out) (sd_model self) in
  let data_given := match data with Some (_ :: _) => true | _ => false end in
  if data_given && auto_sample then
    let d := default [] data in
    if should_sample cfg_max d None then
      match auto_sample_candidates g cfg_max d "smart" with
      | (Ok sampled, g') =>
          (Ok (mkStepData
                 (set_step_metadata
                    (sampling_metadata (len d) (len sampled) (step_metadata m)) m)
                 (Some sampled)), g')
      | (Raise e, g') => (Raise e, g')
      end
    else (Ok (mkStepData m data), g)
  else (Ok (mkStepData m data), g).

(** What one setter call does to the step model. *)
Definition step_call_effect (c : step_call) (m : StepModel) : StepModel :=
  match c with
  | call_set_reasoning text => set_reasoning text m
  | call_add_metadata key value =>
      set_step_metadata (<[key := value]> (step_metadata m)) m
  | call_update_metadata md => set_step_metadata (md ∪ step_metadata m) m
  | call_set_candidates i o => set_counts (Some i) (Some o) m
  end.

Definition step_calls_effect (calls : list step_call) (m : StepModel) : StepModel :=
  foldl (fun m c => step_call_effect c m) m calls.

(** The bundle that leaving run scope [r] at time [now] puts together. *)
Definition exit_bundle (now : Z) (exc : option exn) (σ : Store) (r : nat)
  : IngestPayload :=
  mkPayload (run_model (exit_run_object now exc (the_run σ r)))
    (collected_steps σ r).

(** The exception a failed delivery raises in raise mode: the one of the
    transport, or a [RuntimeError] naming the URL after a response. *)
Definition delivery_error (config : XRayConfig) (net : Net) : exn :=
  match post net with
  | HttpError e => e
  | Response _ =>
      RuntimeError ("Failed to send trace to X-Ray API at "
                    +:+ url_text (getattr config "api_url"))
  end.

(** A first call that sets the timeout and a URL with a trailing slash and
    carries an unknown keyword, and the object it creates. *)
Definition timeout_keywords : list (string * pyval) :=
  [("timeout_seconds", PyInt 20); ("bogus", PyInt 1);
   ("api_url", PyStr "http://xray:8000/")].

Definition timeout_config : XRayConfig :=
  match XRayConfig_init declared_validation builtin_default timeout_keywords with
  | Ok c => c
  | Raise _ => ∅
  end.

(** An update that switches tracing off and stores a URL with a trailing
    slash. *)
Definition update_keywords : list (string * pyval) :=
  [("enabled", PyBool false); ("api_url", PyStr "http://xray:8000/")].

(** What [send] reports in the modes that do not raise: success when
    tracing is off, when the response is 200 or 201, and when the log
    fallback wrote its file. *)
Definition send_reports (config : XRayConfig) (net : Net) : bool :=
  negb (truthy (getattr config "enabled"))
  || negb (post_failed (post net))
  || (mode_is (getattr config "fallback_mode") LOG && can_write net).

(** Whether [send] writes a fallback file. *)
Definition send_logs (config : XRayConfig) (net : Net) : bool :=
  truthy (getattr config "enabled")
  && post_failed (post net)
  && mode_is (getattr config "fallback_mode") LOG
  && can_write net.

(** The default configuration with blocking delivery and the log fallback. *)
Definition log_config : XRayConfig :=
  <["fallback_mode" := PyStr "log"]>
    (<["async_mode" := PyBool false]>
       (list_to_map (map (fun f => (f, builtin_default f)) fields))).

(** A store that answers with status 500. *)
Definition failing : Net := mkNet (Response 500) true 100.

(** Two run scopes created in an empty store, neither entered yet. *)
Definition two_runs : Store :=
  snd (RunContext_init 2 1 "B" "1.0.0" None true
         (snd (RunContext_init 1 0 "A" "1.0.0" None true empty_store))).

(** Two step scopes of run [A] created inside its block, neither entered. *)
Definition two_steps : Store :=
  snd (step 12 run_A "inner" FILTER (snd (step 11 run_A "outer" RANK inside_A))).

(** The model of a step whose block [b] has been left: created with the
    sequence number [counter], started, changed by the setter calls of the
    block, ended, marked with the exception if one escaped, and linked to
    the run with identifier [rid]. *)
Definition finished_step_model (rid : nat) (counter : Z) (b : step_block)
  : StepModel :=
  let m := StepModel_init (sb_uuid b) (sb_name b) (sb_type b) counter in
  let m := set_start_time (Some (sb_entered_at b)) m in
  let m := step_calls_effect (sb_calls b) m in
  let m := set_end_time (Some (sb_left_at b)) m in
  let m := match sb_ends b with
           | Raised e =>
               set_step_metadata
                 (<["exception" := exception_entry e]> (step_metadata m)) m
           | Normal => m
           end in
  set_run_id (Some rid) m.

(** A step block that sets a reasoning and then fails. *)
Definition failing_block : step_block :=
  mkStepBlock 21 "rank" RANK 3 [call_set_reasoning "by score"]
    (Raised app_error) 4.

(** A run scope with automatic sending switched off, entered. *)
Definition quiet_run : nat :=
  fst (RunContext_init 3 0 "quiet" "1.0.0" None false empty_store).

Definition inside_quiet : Store :=
  run_enter quiet_run
    (snd (RunContext_init 3 0 "quiet" "1.0.0" None false empty_store)).

(** Seven candidates and ten candidates, by name. *)
Definition seven : list string := ["a"; "b"; "c"; "d"; "e"; "f"; "g"].

(** * Properties *)

(** ** Derived metrics and run status *)



(** With the counts unset the rate is absent as well. *)
Lemma reduction_rate_unset {pyfloat : Type} (truediv : Z -> Z -> pyfloat) s :
  candidates_in s = None \/ candidates_out s = None ->
  reduction_rate truediv s = None.
Proof.
  unfold reduction_rate. intros [-> | ->]; [reflexivity|].
  destruct (candidates_in s); reflexivity.
Qed.

(** *** Stores *)

Lemma the_run_put_run r x σ : the_run (put_run r x σ) r = x.
Proof. unfold the_run, put_run; simpl. apply lookup_total_insert_eq. Qed.

Lemma the_run_put_run_ne r r' x σ :
  r <> r' -> the_run (put_run r x σ) r' = the_run σ r'.
Proof. intros. unfold the_run, put_run; simpl. by apply lookup_total_insert_ne. Qed.

Lemma the_step_put_step s x σ : the_step (put_step s x σ) s = x.
Proof. unfold the_step, put_step; simpl. apply lookup_total_insert_eq. Qed.

Lemma the_step_put_step_ne s s' x σ :
  s <> s' -> the_step (put_step s x σ) s' = the_step σ s'.
Proof. intros. unfold the_step, put_step; simpl. by apply lookup_total_insert_ne. Qed.

Lemma the_run_put_step s x σ r : the_run (put_step s x σ) r = the_run σ r.
Proof. reflexivity. Qed.

Lemma the_step_put_run r x σ s : the_step (put_run r x σ) s = the_step σ s.
Proof. reflexivity. Qed.

Lemma run_exit_cases config net now r exc σ :
  let x := exit_run_object now exc (the_run σ r) in
  let σ1 := put_run r x σ in
  exists w,
    (exists e, run_exit config net now r exc σ = (Raise e, set_world w σ1))
    \/ run_exit config net now r exc σ
       = (Ok false, set_current_run (_previous_run_context x) (set_world w σ1)).
Proof.
  intros x σ1. unfold run_exit. fold (exit_run_object now exc (the_run σ r)).
  fold x. fold σ1. simpl.
  destruct (auto_send (the_run σ r)).
  - destruct (IngestPayload_init _ _) as [payload|e].
    + destruct (send_trace _ _ _ _) as [[b|e] w]; exists w; [right|left; eexists];
        reflexivity.
    + exists (world σ1). left. exists e. by destruct σ1.
  - exists (world σ1). right. by destruct σ1.
Qed.

Lemma run_exit_run_object config net now r exc σ :
  the_run (snd (run_exit config net now r exc σ)) r
  = exit_run_object now exc (the_run σ r).
Proof.
  destruct (run_exit_cases config net now r exc σ) as [w [[e ->] | ->]];
    simpl; apply the_run_put_run.
Qed.

(** C7, as the code has it. A run starts [RUNNING]; leaving the run scope
    stores [SUCCESS] when no exception is escaping and [FAILURE] otherwise,
    hence never [PARTIAL] and never [RUNNING]; [mark_complete] stores the
    status it is given whatever the status was before, so [PARTIAL] comes
    from an explicit completion call only, and a later completion call
    replaces an earlier terminal status. *)
Theorem run_status_transitions :
  (forall uuid now name version md,
      status (RunModel_init uuid now name version md) = RUNNING)
  /\ (forall now st out r, status (mark_complete now st out r) = st)
  /\ (forall config net now r exc σ,
        status (run_model (the_run (snd (run_exit config net now r exc σ)) r))
        = match exc with None => SUCCESS | Some _ => FAILURE end)
  /\ (forall config net now r exc σ,
        status (run_model (the_run (snd (run_exit config net now r exc σ)) r))
        <> PARTIAL).
Proof.
  split; [reflexivity|]. split; [reflexivity|]. split.
  - intros. rewrite run_exit_run_object. reflexivity.
  - intros. rewrite run_exit_run_object. simpl. destruct exc; discriminate.
Qed.

(** C7, as stated, fails: a second completion call moves a run out of the
    terminal status it had, to another terminal status or back to
    [RUNNING]. *)
Lemma mark_complete_leaves_terminal :
  is_terminal (status finished_run) = true
  /\ status (mark_complete 11 FAILURE None finished_run) <> status finished_run
  /\ status (mark_complete 11 RUNNING None finished_run) = RUNNING.
Proof. repeat split; simpl; congruence. Qed.

(** ** Delivery *)

(** C9. With tracing disabled ([enabled] false), [send] returns [True] for
    every bundle and leaves the record of deliveries as it was: no request
    is issued, no file written, whatever the transport would have done. *)
Theorem send_disabled (config : XRayConfig) (net : Net) (w : World)
    (payload : IngestPayload) :
  truthy (getattr config "enabled") = false ->
  send config net w payload = (Ok true, w)
  /\ length (http_posts (snd (send config net w payload))) = length (http_posts w).
Proof.
  intros Hoff. unfold send. rewrite Hoff. simpl. split; reflexivity.
Qed.

Lemma send_disabled_witness :
  send disabled_config unreachable no_deliveries empty_bundle
  = (Ok true, no_deliveries)
  /\ length (http_posts
               (snd (send disabled_config unreachable no_deliveries empty_bundle)))
     = length (http_posts no_deliveries).
Proof. apply send_disabled. reflexivity. Defined.

Lemma mode_is_RAISE_only v :
  mode_is v RAISE = true -> mode_is v SILENT = false /\ mode_is v LOG = false.
Proof.
  destruct v as [| | |s| |]; simpl; try discriminate.
  intros H%String.eqb_eq. subst s. split; reflexivity.
Qed.

(** [_handle_failure] raises in raise mode, the exception it was given if
    any, and returns in every other mode; it issues no request. *)
Lemma handle_failure_cases config net w payload exc :
  (mode_is (getattr config "fallback_mode") RAISE = true
   /\ exists e, _handle_failure config net w payload exc = (Raise e, w)
                /\ forall e0, exc = Some e0 -> e = e0)
  \/ (mode_is (getattr config "fallback_mode") RAISE = false
      /\ exists b w', _handle_failure config net w payload exc = (Ok b, w')
                      /\ http_posts w' = http_posts w).
Proof.
  unfold _handle_failure, _write_to_log.
  destruct (mode_is (getattr config "fallback_mode") RAISE) eqn:Hr.
  - left. split; [reflexivity|].
    destruct (mode_is_RAISE_only _ Hr) as [-> ->].
    destruct exc as [e0|]; eexists; (split; [reflexivity|]); congruence.
  - right. split; [reflexivity|].
    destruct (mode_is (getattr config "fallback_mode") SILENT); [eauto|].
    destruct (mode_is (getattr config "fallback_mode") LOG); [|eauto].
    destruct (can_write net); eauto.
Qed.

(** With tracing enabled exactly one request is issued. *)
Lemma send_enabled_posts config net w payload :
  truthy (getattr config "enabled") = true ->
  http_posts (snd (send config net w payload)) = http_posts w ++ [payload].
Proof.
  intros Hon. unfold send. rewrite Hon. simpl.
  set (w1 := mkWorld (http_posts w ++ [payload]) (log_files w) (threads w)).
  destruct (post net) as [code|e].
  - destruct ((code =? 200) || (code =? 201)); [reflexivity|].
    destruct (handle_failure_cases config net w1 payload None)
      as [(_ & e & -> & _) | (_ & b & w' & -> & Hw')]; [|exact Hw'].
    destruct (handle_failure_cases config net w1 payload (Some e))
      as [(_ & e' & -> & _) | (_ & b & w' & -> & Hw')]; [reflexivity | exact Hw'].
  - destruct (handle_failure_cases config net w1 payload (Some e))
      as [(_ & e' & -> & _) | (_ & b & w' & -> & Hw')]; [reflexivity | exact Hw'].
Qed.

(** ** Scopes and exceptions *)

(** [send_trace] raises exactly in the situation [delivery_raises]. *)
Lemma send_trace_raises config net w payload :
  delivery_raises config net = true <->
  exists e, fst (send_trace config net w payload) = Raise e.
Proof.
  unfold delivery_raises, send_trace, send.
  destruct (truthy (getattr config "async_mode")); simpl.
  { rewrite andb_false_r. simpl. split; [discriminate | intros [e He]; discriminate]. }
  destruct (truthy (getattr config "enabled")); simpl.
  2: { split; [discriminate | intros [e He]; discriminate]. }
  set (w1 := mkWorld (http_posts w ++ [payload]) (log_files w) (threads w)).
  destruct (post net) as [code|e0]; simpl.
  - destruct ((code =? 200) || (code =? 201)); simpl.
    { rewrite andb_false_r. split; [discriminate | intros [e He]; discriminate]. }
    rewrite andb_true_r.
    destruct (handle_failure_cases config net w1 payload None)
      as [(Hr & e & -> & _) | (Hr & b & w' & -> & _)]; rewrite Hr.
    + destruct (handle_failure_cases config net w1 payload (Some e))
        as [(_ & e' & -> & _) | (Hr' & _)]; [|congruence].
      split; [eauto | reflexivity].
    + split; [discriminate | intros [e He]; discriminate].
  - rewrite andb_true_r.
    destruct (handle_failure_cases config net w1 payload (Some e0))
      as [(Hr & e & -> & _) | (Hr & b & w' & -> & _)]; rewrite Hr.
    + split; [eauto | reflexivity].
    + split; [discriminate | intros [e He]; discriminate].
Qed.

Lemma send_trace_returns config net w payload :
  delivery_raises config net = false ->
  exists b w', send_trace config net w payload = (Ok b, w').
Proof.
  intros Hno. destruct (send_trace config net w payload) as [[b|e] w'] eqn:E; [eauto|].
  assert (delivery_raises config net = true) as Hyes.
  { apply (send_trace_raises config net w payload). exists e. by rewrite E. }
  congruence.
Qed.

Lemma collected_steps_put_run r x σ r' :
  steps x = steps (the_run σ r') ->
  collected_steps (put_run r x σ) r' = collected_steps σ r'.
Proof.
  intros Hs. unfold collected_steps. destruct (decide (r = r')) as [->|Hne].
  - rewrite the_run_put_run, Hs. reflexivity.
  - rewrite the_run_put_run_ne by done. reflexivity.
Qed.

(** [run_exit] returns [False] when the delivery inside it does not raise. *)
Lemma run_exit_returns config net now r exc σ :
  auto_send (the_run σ r) = false
  \/ (bundle_valid σ r /\ delivery_raises config net = false) ->
  exists w,
    run_exit config net now r exc σ
    = (Ok false,
       set_current_run (_previous_run_context (the_run σ r))
         (set_world w (put_run r (exit_run_object now exc (the_run σ r)) σ))).
Proof.
  intros H. unfold run_exit. fold (exit_run_object now exc (the_run σ r)).
  set (x := exit_run_object now exc (the_run σ r)). simpl.
  destruct (auto_send (the_run σ r)) eqn:Ha.
  - destruct H as [H | [Hv Hd]]; [discriminate|].
    rewrite collected_steps_put_run by reflexivity.
    unfold IngestPayload_init. unfold bundle_valid in Hv. rewrite Hv.
    match goal with
    | |- context [send_trace ?c ?n ?w ?p] =>
        destruct (send_trace_returns c n w p Hd) as (b & w' & ->)
    end.
    exists w'. reflexivity.
  - exists (world σ). by destruct σ.
Qed.

(** C1, as the code has it. A run scope left by an application exception
    lets that same exception continue to the caller -- [__exit__] returns
    [False] -- whenever the delivery inside [__exit__] does not itself
    raise: automatic sending is off, or the collected steps pass the
    validator of the bundle and it is not the case that tracing is enabled,
    delivery is blocking, the fallback mode is [raise] and the request
    fails. This covers the modes [silent] and [log] for every delivery
    result, and the mode [raise] for a successful, disabled or background
    delivery. *)
Theorem run_exit_propagates (config : XRayConfig) (net : Net) (now : Z)
    (r : nat) (e : exn) (σ : Store) :
  auto_send (the_run σ r) = false
  \/ (bundle_valid σ r /\ delivery_raises config net = false) ->
  fst (run_exit config net now r (Some e) σ) = Ok false
  /\ with_exit (Raised e) (fst (run_exit config net now r (Some e) σ)) = Raised e.
Proof.
  intros H. destruct (run_exit_returns config net now r (Some e) σ H) as [w ->].
  split; reflexivity.
Qed.

Lemma run_exit_propagates_witness :
  fst (run_exit default_config unreachable 5 run_A (Some app_error) inside_A)
  = Ok false
  /\ with_exit (Raised app_error)
       (fst (run_exit default_config unreachable 5 run_A (Some app_error) inside_A))
     = Raised app_error.
Proof.
  apply run_exit_propagates. right. split; reflexivity.
Defined.

(** C1, as stated, fails in raise mode: with blocking delivery and an
    unreachable store, the connection error raised inside [__exit__] is what
    leaves the run scope, not the exception of the application. *)
Lemma run_exit_raise_mode_replaces :
  with_exit (Raised app_error)
    (fst (run_exit raise_config unreachable 5 run_A (Some app_error) inside_A))
  = Raised refused
  /\ Raised refused <> Raised app_error.
Proof. split; [vm_compute; reflexivity | discriminate]. Qed.

(** In that situation the exception of the delivery is the one raised. *)
Lemma run_exit_raises_delivery_error config net now r exc σ :
  auto_send (the_run σ r) = true -> bundle_valid σ r ->
  delivery_raises config net = true ->
  exists e, fst (run_exit config net now r exc σ) = Raise e.
Proof.
  intros Ha Hv Hd. unfold run_exit.
  fold (exit_run_object now exc (the_run σ r)).
  set (x := exit_run_object now exc (the_run σ r)). simpl. rewrite Ha.
  rewrite collected_steps_put_run by reflexivity.
  unfold IngestPayload_init. unfold bundle_valid in Hv. rewrite Hv.
  match goal with
  | |- context [send_trace ?c ?n ?w ?p] =>
      destruct (proj1 (send_trace_raises c n w p) Hd) as [e He];
      destruct (send_trace c n w p) as [[b|e'] w']; simpl in He; [discriminate|]
  end.
  exists e'. reflexivity.
Qed.

(** *** Saving and restoring the current run and step *)

Lemma run_enter_saves r σ :
  get_current_run (run_enter r σ) = Some r
  /\ _previous_run_context (the_run (run_enter r σ) r) = get_current_run σ.
Proof.
  unfold run_enter. split; [reflexivity|].
  change (the_run (set_current_run ?v ?s) r) with (the_run s r).
  rewrite the_run_put_run. reflexivity.
Qed.

Lemma run_enter_other r r' σ :
  r <> r' -> the_run (run_enter r σ) r' = the_run σ r'.
Proof.
  intros Hne. unfold run_enter.
  change (the_run (set_current_run ?v ?s) r') with (the_run s r').
  by apply the_run_put_run_ne.
Qed.

(** When [run_exit] returns, the current run is the one saved on entry. *)
Lemma run_exit_restores config net now r exc σ b :
  fst (run_exit config net now r exc σ) = Ok b ->
  get_current_run (snd (run_exit config net now r exc σ))
  = _previous_run_context (the_run σ r).
Proof.
  destruct (run_exit_cases config net now r exc σ) as [w [[e ->] | ->]];
    simpl; [discriminate | reflexivity].
Qed.

Lemma run_exit_other config net now r exc σ r' :
  r <> r' -> the_run (snd (run_exit config net now r exc σ)) r' = the_run σ r'.
Proof.
  intros Hne.
  destruct (run_exit_cases config net now r exc σ) as [w [[e ->] | ->]];
    simpl; by apply the_run_put_run_ne.
Qed.

(** X12. Entering run [A], then run [B], then leaving [B] and [A]: as long as
    each [__exit__] returns, leaving [B] makes [A] current again, and
    leaving [A] brings back what was current before (no run, from the
    outermost scope). *)
Lemma nested_runs_restore config netA netB tA tB excA excB (A B : nat) σ :
  A <> B ->
  let σ2 := run_enter B (run_enter A σ) in
  let xB := run_exit config netB tB B excB σ2 in
  let xA := run_exit config netA tA A excA (snd xB) in
  get_current_run σ2 = Some B
  /\ (fst xB = Ok false ->
      get_current_run (snd xB) = Some A
      /\ (fst xA = Ok false -> get_current_run (snd xA) = get_current_run σ)).
Proof.
  intros Hne σ2 xB xA. split; [reflexivity|]. intros HB. split.
  - unfold xB. rewrite (run_exit_restores _ _ _ _ _ _ _ HB).
    unfold σ2. rewrite (proj2 (run_enter_saves B _)).
    apply run_enter_saves.
  - intros HA. unfold xA. rewrite (run_exit_restores _ _ _ _ _ _ _ HA).
    unfold xB. rewrite run_exit_other by done.
    unfold σ2. rewrite run_enter_other by done.
    apply run_enter_saves.
Qed.

(** C4 at the input where the code departs from it: run [B] is entered
    inside run [A]; blocking delivery in raise mode meets an unreachable
    store when [B] is left, the connection error leaves [__exit__] before
    the line that restores the context variable, and the current run is
    still [B], not [A]. *)
Theorem nested_exit_skips_restore :
  get_current_run inside_A = Some run_A
  /\ get_current_run inside_B = Some run_B
  /\ fst (run_exit raise_config unreachable 5 run_B None inside_B) = Raise refused
  /\ get_current_run (snd (run_exit raise_config unreachable 5 run_B None inside_B))
     = Some run_B
  /\ Some run_B <> Some run_A.
Proof. repeat split; try (vm_compute; reflexivity). vm_compute. discriminate. Qed.

Lemma step_enter_saves now s σ :
  get_current_step (step_enter now s σ) = Some s
  /\ _previous_step_context (the_step (step_enter now s σ) s) = get_current_step σ.
Proof.
  unfold step_enter. split; [reflexivity|].
  change (the_step (set_current_step ?v ?x) s) with (the_step x s).
  rewrite the_step_put_step. reflexivity.
Qed.

Lemma step_enter_other now s s' σ :
  s <> s' -> the_step (step_enter now s σ) s' = the_step σ s'.
Proof.
  intros Hne. unfold step_enter, update_step_model.
  change (the_step (set_current_step ?v ?x) s') with (the_step x s').
  by rewrite !the_step_put_step_ne.
Qed.

(** What [step_exit] leaves in the step scope it is called on. *)
Lemma step_exit_step_object now s exc σ :
  the_step (snd (step_exit now s exc σ)) s
  = let sc := the_step σ s in
    let m := set_end_time (Some now) (step_model sc) in
    let m := match exc with
             | Some e => set_step_metadata
                           (<["exception" := exception_entry e]> (step_metadata m)) m
             | None => m
             end in
    mkStepContext (run_context sc)
      (set_run_id (Some (id (run_model (the_run σ (run_context sc))))) m)
      (_previous_step_context sc).
Proof.
  unfold step_exit, add_step, update_step_model. simpl.
  change (the_step (set_current_step ?v ?x) s) with (the_step x s).
  rewrite the_step_put_run, the_step_put_step.
  destruct exc as [e|]; rewrite ?the_step_put_step; reflexivity.
Qed.

Lemma step_exit_restores now s exc σ :
  fst (step_exit now s exc σ) = Ok false
  /\ get_current_step (snd (step_exit now s exc σ))
     = _previous_step_context (the_step σ s).
Proof.
  unfold step_exit, update_step_model. simpl. split; [reflexivity|].
  destruct exc as [e|]; rewrite ?the_step_put_step; reflexivity.
Qed.

Lemma step_exit_other now s exc σ s' :
  s <> s' -> the_step (snd (step_exit now s exc σ)) s' = the_step σ s'.
Proof.
  intros Hne. unfold step_exit, add_step, update_step_model. simpl.
  change (the_step (set_current_step ?v ?x) s') with (the_step x s').
  rewrite the_step_put_run.
  destruct exc as [e|]; by rewrite !the_step_put_step_ne.
Qed.

(** X13. Entering step scope [s1], then [s2], then leaving [s2] makes
    [s1] the current step again, and leaving [s1] brings back what was
    current before; the [__exit__] of a step scope always returns, so this
    holds whatever the blocks raised. *)
Lemma nested_steps_restore t1 t2 t3 t4 exc1 exc2 (s1 s2 : nat) σ :
  s1 <> s2 ->
  let σ2 := step_enter t2 s2 (step_enter t1 s1 σ) in
  let x2 := step_exit t3 s2 exc2 σ2 in
  let x1 := step_exit t4 s1 exc1 (snd x2) in
  get_current_step σ2 = Some s2
  /\ get_current_step (snd x2) = Some s1
  /\ get_current_step (snd x1) = get_current_step σ.
Proof.
  intros Hne σ2 x2 x1. split; [reflexivity|]. split.
  - unfold x2. rewrite (proj2 (step_exit_restores _ _ _ _)).
    unfold σ2. rewrite (proj2 (step_enter_saves _ _ _)).
    apply step_enter_saves.
  - unfold x1. rewrite (proj2 (step_exit_restores _ _ _ _)).
    unfold x2. rewrite step_exit_other by done.
    unfold σ2. rewrite step_enter_other by done.
    apply step_enter_saves.
Qed.

Lemma run_exit_step_ctxs config net now r exc σ :
  step_ctxs (snd (run_exit config net now r exc σ)) = step_ctxs σ.
Proof.
  destruct (run_exit_cases config net now r exc σ) as [w [[e ->] | ->]];
    reflexivity.
Qed.

Lemma run_exit_the_step config net now r exc σ s :
  the_step (snd (run_exit config net now r exc σ)) s = the_step σ s.
Proof. unfold the_step. by rewrite run_exit_step_ctxs. Qed.

(** C6, as the code has it. An exception [e] raised in the block of a step
    scope leaves the step scope unchanged; the step's metadata then holds,
    under ["exception"], the name of the class of [e] and its text; the run
    that owns the step ends with status [FAILURE]; and [e] itself is what
    leaves the run scope whenever the delivery inside the run's [__exit__]
    does not raise (automatic sending off, or a valid bundle and not the
    combination enabled, blocking, raise mode, failed request). *)
Theorem step_exception_recorded (config : XRayConfig) (net : Net) (t1 t2 : Z)
    (s : nat) (e : exn) (σ : Store) :
  let r := run_context (the_step σ s) in
  let x1 := step_exit t1 s (Some e) σ in
  let o1 := with_exit (Raised e) (fst x1) in
  let x2 := run_exit config net t2 r (escaping o1) (snd x1) in
  o1 = Raised e
  /\ step_metadata (step_model (the_step (snd x2) s)) !! "exception"
     = Some (PyDict [("type", PyStr (exn_type e));
                     ("message", PyStr (exn_message e))])
  /\ status (run_model (the_run (snd x2) r)) = FAILURE
  /\ (auto_send (the_run (snd x1) r) = false
      \/ (bundle_valid (snd x1) r /\ delivery_raises config net = false) ->
      with_exit o1 (fst x2) = Raised e).
Proof.
  intros r x1 o1 x2.
  assert (o1 = Raised e) as Ho1.
  { unfold o1, x1. rewrite (proj1 (step_exit_restores _ _ _ _)). reflexivity. }
  split; [exact Ho1|]. split; [|split].
  - unfold x2. rewrite run_exit_the_step. unfold x1.
    rewrite step_exit_step_object. simpl. apply lookup_insert_eq.
  - unfold x2. rewrite run_exit_run_object. rewrite Ho1. reflexivity.
  - intros H. unfold x2. rewrite Ho1.
    change (escaping (Raised e)) with (Some e).
    destruct (run_exit_returns config net t2 r (Some e) (snd x1) H) as [w ->].
    reflexivity.
Qed.

(** The same scenario with background delivery (the default). *)
Lemma step_exception_recorded_witness :
  let x1 := step_exit 3 step_S (Some app_error) inside_S in
  let x2 := run_exit default_config unreachable 4 run_A (Some app_error) (snd x1) in
  step_metadata (step_model (the_step (snd x2) step_S)) !! "exception"
  = Some (PyDict [("type", PyStr "KeyError"); ("message", PyStr "product_id")])
  /\ status (run_model (the_run (snd x2) run_A)) = FAILURE
  /\ with_exit (Raised app_error) (fst x2) = Raised app_error.
Proof.
  pose proof (step_exception_recorded default_config unreachable 3 4
                step_S app_error inside_S) as H.
  destruct H as (_ & Hmeta & Hstatus & Hprop).
  split; [exact Hmeta|]. split; [exact Hstatus|].
  apply Hprop. right. split; reflexivity.
Defined.

(** C6, as stated, fails in its first part: with blocking delivery in
    raise mode and an unreachable store, the exception raised in the step
    is recorded and the run is marked [FAILURE], but what arrives above the
    run scope is the connection error. *)
Lemma step_exception_replaced_in_raise_mode :
  let x1 := step_exit 3 step_S (Some app_error) inside_S in
  let o1 := with_exit (Raised app_error) (fst x1) in
  let x2 := run_exit raise_config unreachable 4 run_A (escaping o1) (snd x1) in
  o1 = Raised app_error
  /\ with_exit o1 (fst x2) = Raised refused
  /\ Raised refused <> Raised app_error.
Proof. repeat split; try (vm_compute; reflexivity). discriminate. Qed.

(** ** Sequence numbers *)

Lemma touches_step_trans s σ σ' σ'' :
  touches_step s σ σ' -> touches_step s σ' σ'' -> touches_step s σ σ''.
Proof.
  intros (Hr & X & Hs & Hq & Hn & Hc) (Hr' & Y & Hs' & Hq' & Hn' & Hc').
  assert (the_step σ' s = X) as HX.
  { unfold the_step. rewrite Hs. apply lookup_total_insert_eq. }
  rewrite HX in Hq', Hn', Hc'.
  split; [congruence|]. exists Y. repeat split; try congruence.
  rewrite Hs', Hs. apply insert_insert_eq.
Qed.

Lemma touches_update_step_model f s σ :
  (forall m, sequence (f m) = sequence m /\ step_name (f m) = step_name m) ->
  touches_step s σ (update_step_model f s σ).
Proof.
  intros Hf. split; [reflexivity|]. eexists. split; [reflexivity|].
  simpl. destruct (Hf (step_model (the_step σ s))). done.
Qed.

Lemma touches_step_enter now s σ : touches_step s σ (step_enter now s σ).
Proof.
  unfold step_enter.
  eapply touches_step_trans.
  - apply (touches_update_step_model (set_start_time (Some now))). done.
  - split; [reflexivity|]. eexists. split; [reflexivity|]. done.
Qed.

Lemma touches_do_step_call s c σ : touches_step s σ (do_step_call s c σ).
Proof.
  destruct c; simpl; apply touches_update_step_model; done.
Qed.

Lemma touches_step_calls s calls σ σ' :
  touches_step s σ σ' ->
  touches_step s σ (foldl (fun σ c => do_step_call s c σ) σ' calls).
Proof.
  revert σ'. induction calls as [|c calls IH]; intros σ' H; simpl; [exact H|].
  apply IH. eapply touches_step_trans; [exact H|]. apply touches_do_step_call.
Qed.

Lemma the_step_update f s σ :
  the_step (update_step_model f s σ) s
  = mkStepContext (run_context (the_step σ s)) (f (step_model (the_step σ s)))
      (_previous_step_context (the_step σ s)).
Proof. unfold update_step_model. apply the_step_put_step. Qed.

(** [step_exit] appends the step to the list of the run it belongs to and
    changes nothing else in that run. *)
Lemma step_exit_runs now s exc σ :
  let r := run_context (the_step σ s) in
  let x := the_run σ r in
  runs (snd (step_exit now s exc σ))
  = <[r := mkRunContext (run_model x) (steps x ++ [s]) (auto_send x)
             (_sequence_counter x) (_previous_run_context x)]> (runs σ).
Proof.
  intros r x. unfold step_exit. cbn [snd].
  change (runs (set_current_step ?v ?y)) with (runs y).
  destruct exc as [e|]; unfold add_step;
    change (runs (put_run ?a ?b ?c)) with (<[a := b]> (runs c));
    rewrite ?the_step_update; cbn [run_context]; reflexivity.
Qed.

Lemma step_exit_step_ctxs now s exc σ :
  step_ctxs (snd (step_exit now s exc σ))
  = <[s := the_step (snd (step_exit now s exc σ)) s]> (step_ctxs σ).
Proof.
  assert (exists Y, step_ctxs (snd (step_exit now s exc σ))
                    = <[s := Y]> (step_ctxs σ)) as [Y HY].
  { unfold step_exit, add_step, update_step_model, put_step, put_run,
      set_current_step.
    destruct exc as [e|]; simpl; rewrite ?insert_insert_eq;
      eexists; reflexivity. }
  unfold the_step. rewrite HY, lookup_total_insert_eq. reflexivity.
Qed.

(** The effect of one step block on the run that creates the step and on
    the store of step scopes. *)
Lemma with_step_effect r b σ :
  let s := fresh (dom (step_ctxs σ)) in
  let σ' := snd (with_step r b σ) in
  let x := the_run σ r in
  fst (with_step r b σ) = sb_ends b
  /\ the_run σ' r
     = mkRunContext (run_model x) (steps x ++ [s]) (auto_send x)
         (_sequence_counter x + 1) (_previous_run_context x)
  /\ exists X,
      step_ctxs σ' = <[s := X]> (step_ctxs σ)
      /\ sequence (step_model X) = _sequence_counter x
      /\ step_name (step_model X) = sb_name b.
Proof.
  intros s σ' x.
  set (x1 := mkRunContext (run_model x) (steps x) (auto_send x)
               (_sequence_counter x + 1) (_previous_run_context x)).
  set (sc := mkStepContext r
               (StepModel_init (sb_uuid b) (sb_name b) (sb_type b)
                  (_sequence_counter x)) None).
  set (σ1 := put_run r x1 (put_step s sc σ)).
  assert (the_step σ1 s = sc) as Hsc.
  { unfold σ1. rewrite the_step_put_run. apply the_step_put_step. }
  set (σ3 := foldl (fun σ c => do_step_call s c σ)
               (step_enter (sb_entered_at b) s σ1) (sb_calls b)).
  assert (touches_step s σ1 σ3) as (Hr & X & Hs & Hq & Hn & Hc).
  { apply touches_step_calls, touches_step_enter. }
  rewrite Hsc in Hq, Hn, Hc. simpl in Hq, Hn, Hc.
  assert (the_step σ3 s = X) as HX.
  { unfold the_step. rewrite Hs. apply lookup_total_insert_eq. }
  assert (the_run σ3 r = x1) as Hx1.
  { unfold the_run. rewrite Hr. unfold σ1. apply the_run_put_run. }
  assert (with_step r b σ
          = (with_exit (sb_ends b)
               (fst (step_exit (sb_left_at b) s (escaping (sb_ends b)) σ3)),
             snd (step_exit (sb_left_at b) s (escaping (sb_ends b)) σ3))) as Hw.
  { unfold with_step, step. fold s. fold x. fold x1. fold sc. fold σ1. fold σ3.
    by destruct (step_exit _ _ _ σ3). }
  unfold σ'. rewrite Hw. clear Hw.
  pose proof (step_exit_restores (sb_left_at b) s (escaping (sb_ends b)) σ3) as [Hres _].
  pose proof (step_exit_step_object (sb_left_at b) s (escaping (sb_ends b)) σ3) as Hobj.
  pose proof (step_exit_runs (sb_left_at b) s (escaping (sb_ends b)) σ3) as Hruns.
  pose proof (step_exit_step_ctxs (sb_left_at b) s (escaping (sb_ends b)) σ3) as Hctxs.
  cbn zeta in Hobj, Hruns. rewrite HX, Hc, Hx1 in Hruns. rewrite HX in Hobj.
  destruct (step_exit (sb_left_at b) s (escaping (sb_ends b)) σ3) as [res σ4].
  cbn [fst snd] in *. subst res.
  split; [by destruct (sb_ends b)|]. split.
  - unfold the_run at 1. rewrite Hruns. apply lookup_total_insert_eq.
  - exists (the_step σ4 s). split; [|split].
    + rewrite Hctxs, Hs. rewrite insert_insert_eq. unfold σ1. simpl.
      by rewrite insert_insert_eq.
    + rewrite Hobj. destruct (escaping (sb_ends b)); simpl; exact Hq.
    + rewrite Hobj. destruct (escaping (sb_ends b)); simpl; exact Hn.
Qed.

Lemma collected_steps_snoc σ σ' r s X (l : list nat) :
  steps (the_run σ r) = l ->
  Forall (fun s' => s' ∈ dom (step_ctxs σ)) l ->
  s ∉ dom (step_ctxs σ) ->
  step_ctxs σ' = <[s := X]> (step_ctxs σ) ->
  steps (the_run σ' r) = l ++ [s] ->
  collected_steps σ' r = collected_steps σ r ++ [step_model X].
Proof.
  intros Hl Hdom Hfresh Hctx Hs. unfold collected_steps. rewrite Hs, Hl, map_app.
  f_equal.
  - apply map_ext_in. intros s' Hin. unfold the_step. rewrite Hctx.
    rewrite lookup_total_insert_ne; [reflexivity|].
    intros ->. apply Hfresh. rewrite Forall_forall in Hdom. apply Hdom.
    by apply list_elem_of_In.
  - simpl. unfold the_step. rewrite Hctx, lookup_total_insert_eq. reflexivity.
Qed.

Lemma upto_S n : upto (S n) = upto n ++ [Z.of_nat n].
Proof. unfold upto. rewrite seq_S, map_app. reflexivity. Qed.

(** One step block keeps the collected sequence numbers in step with the
    counter. *)
Lemma with_step_in_sequence r b σ names :
  in_sequence σ r names ->
  in_sequence (snd (with_step r b σ)) r (names ++ [sb_name b]).
Proof.
  intros (Hc & Hq & Hn & Hdom).
  destruct (with_step_effect r b σ) as (_ & Hrun & X & Hctx & HXq & HXn).
  set (s := fresh (dom (step_ctxs σ))) in *.
  assert (s ∉ dom (step_ctxs σ)) as Hfresh by apply is_fresh.
  assert (collected_steps (snd (with_step r b σ)) r
          = collected_steps σ r ++ [step_model X]) as Hcol.
  { eapply collected_steps_snoc; [reflexivity | exact Hdom | exact Hfresh
                                  | exact Hctx | by rewrite Hrun]. }
  unfold in_sequence. rewrite length_app.
  change (length [sb_name b]) with 1%nat.
  replace (length names + 1)%nat with (S (length names)) by lia.
  repeat split.
  - rewrite Hrun. simpl. lia.
  - unfold collected_sequences. rewrite Hcol, map_app, upto_S. simpl.
    unfold collected_sequences in Hq. rewrite Hq, HXq, Hc. reflexivity.
  - rewrite Hcol, map_app, Hn. simpl. by rewrite HXn.
  - rewrite Hrun. cbn [steps]. rewrite Hctx. apply Forall_app. split.
    + eapply Forall_impl; [exact Hdom|]. intros s' Hs'. simpl in Hs'.
      rewrite dom_insert_L. apply elem_of_union. by right.
    + constructor; [|constructor]. rewrite dom_insert_L.
      apply elem_of_union. left. by apply elem_of_singleton.
Qed.

Lemma with_steps_in_sequence r bs σ names :
  in_sequence σ r names ->
  in_sequence (with_steps r bs σ) r (names ++ map sb_name bs).
Proof.
  revert σ names. induction bs as [|b bs IH]; intros σ names H; simpl.
  - by rewrite app_nil_r.
  - replace (names ++ sb_name b :: map sb_name bs)
      with ((names ++ [sb_name b]) ++ map sb_name bs) by (by rewrite <- app_assoc).
    apply IH. by apply with_step_in_sequence.
Qed.

Lemma new_run_in_sequence uuid now name version md auto σ0 :
  let r := fst (RunContext_init uuid now name version md auto σ0) in
  in_sequence (run_enter r (snd (RunContext_init uuid now name version md auto σ0)))
    r [].
Proof.
  intros r. unfold RunContext_init in *. simpl in r.
  unfold in_sequence, collected_sequences, collected_steps, run_enter.
  change (the_run (set_current_run ?v ?x) r) with (the_run x r).
  rewrite the_run_put_run. simpl. rewrite the_run_put_run. simpl.
  repeat split. constructor.
Qed.

(** Steps used one after the other. [RunContext.step] gives the new step the value
    of the run's counter and advances the counter by one, at creation and
    without any say of the caller. When the steps of a run are used one
    after the other -- each created, entered and left before the next is
    created -- the sequence numbers of the collected steps are exactly
    [0, 1, ..., n-1] in the order in which the steps were attached, which is
    then the order in which they were created. *)
Theorem sequential_steps_in_sequence :
  (forall uuid r name ty σ,
      let x := step uuid r name ty σ in
      sequence (step_model (the_step (snd x) (fst x)))
      = _sequence_counter (the_run σ r)
      /\ _sequence_counter (the_run (snd x) r) = _sequence_counter (the_run σ r) + 1)
  /\ (forall uuid now name version md auto σ0 (bs : list step_block),
      let r := fst (RunContext_init uuid now name version md auto σ0) in
      let σ := with_steps r bs
                 (run_enter r
                    (snd (RunContext_init uuid now name version md auto σ0))) in
      collected_sequences σ r = upto (length bs)
      /\ map step_name (collected_steps σ r) = map sb_name bs
      /\ _sequence_counter (the_run σ r) = Z.of_nat (length bs)).
Proof.
  split.
  - intros uuid r name ty σ x. unfold x, step. simpl.
    rewrite the_step_put_run, the_step_put_step, the_run_put_run. done.
  - intros uuid now name version md auto σ0 bs r σ.
    pose proof (new_run_in_sequence uuid now name version md auto σ0) as H0.
    pose proof (with_steps_in_sequence _ bs _ _ H0) as (Hc & Hq & Hn & _).
    fold r in Hc, Hq, Hn. fold σ in Hc, Hq, Hn.
    simpl in Hc, Hq, Hn. rewrite length_map in Hc, Hq. done.
Qed.

(** C2. Step scopes can be nested, and [StepContext.__enter__] keeps the
    enclosing step for that case; but a sequence number is given when a
    step is created and the step is attached when its scope is left, so the
    inner step, created second, is attached first: the collected sequence
    numbers are [1, 0], not [0, 1]. The bundle of such a run does not pass
    [IngestPayload.validate_steps], so leaving the run scope with automatic
    sending raises that validator's error -- a [ValueError] -- in every
    configuration and for every transport, whether or not an exception of
    the application is escaping. *)
Theorem nested_steps_break_sequence :
  map step_name (collected_steps after_nested_steps run_A) = ["inner"; "score"]
  /\ collected_sequences after_nested_steps run_A = [1; 0]
  /\ collected_sequences after_nested_steps run_A <> upto 2
  /\ auto_send (the_run after_nested_steps run_A) = true
  /\ (forall (config : XRayConfig) (net : Net) (now : Z) (exc : option exn),
        exists e,
          fst (run_exit config net now run_A exc after_nested_steps) = Raise e
          /\ is_ValueError e = true
          /\ world (snd (run_exit config net now run_A exc after_nested_steps))
             = world after_nested_steps).
Proof.
  split; [vm_compute; reflexivity|]. split; [vm_compute; reflexivity|].
  split; [vm_compute; discriminate|]. split; [vm_compute; reflexivity|].
  intros config net now exc. eexists. repeat split.
Qed.

(** ** Sampling *)

Lemma len_nonneg {A} (l : list A) : 0 <= len l.
Proof. unfold len. lia. Qed.

Lemma len_app {A} (l k : list A) : len (l ++ k) = len l + len k.
Proof. unfold len. rewrite length_app. lia. Qed.

Lemma slice_bound_range n i : 0 <= n -> 0 <= slice_bound n i <= n.
Proof. unfold slice_bound. intros. destruct (Z.ltb_spec i 0); lia. Qed.

(** The length of a slice, from its two clamped bounds. *)
Lemma len_py_slice {A} (l : list A) start stop :
  let n := len l in
  let a := match start with None => 0 | Some i => slice_bound n i end in
  let b := match stop with None => n | Some j => slice_bound n j end in
  len (py_slice l start stop) = Z.max 0 (b - a).
Proof.
  intros n a b. unfold py_slice, len. fold (len l). fold n. fold a. fold b.
  rewrite length_take, length_drop.
  assert (0 <= a <= n).
  { unfold a. destruct start; [apply slice_bound_range; apply len_nonneg|].
    pose proof (len_nonneg l). unfold n. lia. }
  assert (0 <= b <= n).
  { unfold b. destruct stop; [apply slice_bound_range; apply len_nonneg|].
    pose proof (len_nonneg l). unfold n. lia. }
  unfold n, len in *. lia.
Qed.

Lemma len_head {A} (l : list A) k :
  0 <= k -> len (py_slice l None (Some k)) = Z.min k (len l).
Proof.
  intros Hk. rewrite len_py_slice. unfold slice_bound.
  pose proof (len_nonneg l). destruct (Z.ltb_spec k 0); lia.
Qed.

Lemma len_tail {A} (l : list A) k :
  0 < k -> len (py_slice l (Some (- k)) None) = Z.min k (len l).
Proof.
  intros Hk. rewrite len_py_slice. unfold slice_bound.
  pose proof (len_nonneg l). destruct (Z.ltb_spec (- k) 0); lia.
Qed.

Lemma len_middle {A} (l : list A) a :
  0 < a -> len (py_slice l (Some a) (Some (- a))) = Z.max 0 (len l - 2 * a).
Proof.
  intros Ha. rewrite len_py_slice. unfold slice_bound.
  pose proof (len_nonneg l).
  destruct (Z.ltb_spec a 0); [lia|]. destruct (Z.ltb_spec (- a) 0); lia.
Qed.

(** [pick] returns as many elements as asked when the pool has them... *)
Lemma pick_length {A} (k : nat) (g : rng) (pool : list A) :
  (k <= length pool)%nat -> length (fst (pick k g pool)) = k.
Proof.
  revert g pool. induction k as [|k IH]; intros g pool Hk; simpl; [reflexivity|].
  destruct (draw g) as [r g1].
  assert (r mod length pool < length pool)%nat as Hlt
      by (apply Nat.mod_upper_bound; lia).
  destruct (lookup_lt_is_Some_2 pool _ Hlt) as [x Hx]. rewrite Hx.
  specialize (IH g1 (delete (r mod length pool)%nat pool)).
  destruct (pick k g1 (delete (r mod length pool)%nat pool)) as [xs g2]. simpl in *.
  f_equal. apply IH. rewrite length_delete by eauto. lia.
Qed.

(** ... and all of them come from the pool. *)
Lemma pick_Forall {A} (P : A -> Prop) (k : nat) (g : rng) (pool : list A) :
  Forall P pool -> Forall P (fst (pick k g pool)).
Proof.
  revert g pool. induction k as [|k IH]; intros g pool HP; simpl; [constructor|].
  destruct (draw g) as [r g1].
  destruct (pool !! (r mod length pool)%nat) as [x|] eqn:Hx; [|constructor].
  specialize (IH g1 (delete (r mod length pool)%nat pool)).
  destruct (pick k g1 (delete (r mod length pool)%nat pool)) as [xs g2]. simpl in *.
  constructor.
  - rewrite Forall_lookup in HP. eapply HP. exact Hx.
  - apply IH. by apply Forall_delete.
Qed.

(** [random.sample] with [0 <= k <= len(population)] returns [k] elements
    of the population. *)
Lemma random_sample_ok {A} (g : rng) (population : list A) (k : Z) :
  0 <= k <= len population ->
  exists xs g',
    random_sample g population k = (Ok xs, g')
    /\ len xs = k
    /\ forall P : A -> Prop, Forall P population -> Forall P xs.
Proof.
  intros Hk. unfold random_sample.
  destruct (Z.ltb_spec k 0); [lia|].
  destruct (Z.ltb_spec (len population) k); [lia|]. simpl.
  pose proof (pick_length (Z.to_nat k) g population) as Hlen.
  pose proof (fun P => pick_Forall P (Z.to_nat k) g population) as Hall.
  destruct (pick (Z.to_nat k) g population) as [xs g']. simpl in *.
  exists xs, g'. split; [reflexivity|]. split; [|exact (fun P => Hall P)].
  unfold len in *. rewrite Hlen; lia.
Qed.

Lemma random_sample_negative {A} (g : rng) (population : list A) (k : Z) :
  k < 0 -> exists e, random_sample g population k = (Raise e, g).
Proof.
  intros Hk. unfold random_sample.
  destruct (Z.ltb_spec k 0); [|lia]. simpl. eauto.
Qed.

(** At or below the threshold the list comes back as it is. *)
Lemma sample_candidates_identity {Cand} (g : rng) (cfg_max : Z)
    (candidates : list Cand) (T S : Z) :
  len candidates <= T ->
  sample_candidates g cfg_max candidates (Some T) S = (Ok candidates, g).
Proof.
  intros H. unfold sample_candidates.
  destruct (Z.leb_spec (len candidates) T); [reflexivity | lia].
Qed.

(** Above the threshold, with a sample size of at least one, the size of
    the result is [smart_sample_size]. *)
Lemma sample_candidates_size {Cand} (g : rng) (cfg_max : Z)
    (candidates : list Cand) (T S : Z) :
  T < len candidates -> 1 <= S ->
  exists out g',
    sample_candidates g cfg_max candidates (Some T) S = (Ok out, g')
    /\ len out = smart_sample_size (len candidates) S.
Proof.
  intros HT HS. unfold sample_candidates, smart_sample_size.
  pose proof (len_nonneg candidates) as HN.
  destruct (Z.leb_spec (len candidates) T) as [|_]; [lia|].
  assert (len (py_slice candidates None (Some (Z.min S (len candidates))))
          = Z.min S (len candidates)) as Hhead.
  { rewrite len_head by lia. lia. }
  destruct (Z.ltb_spec S (len candidates)) as [HSN|HSN].
  - assert (len (py_slice candidates (Some (- Z.min S (len candidates))) None) = S)
      as Htail.
    { rewrite len_tail by lia. lia. }
    destruct (Z.leb_spec (len candidates) S) as [|_]; [lia|].
    destruct (Z.ltb_spec (S * 2) (len candidates)) as [H2|H2].
    + destruct (Z.leb_spec (len candidates) (2 * S)) as [|_]; [lia|].
      pose proof (len_middle candidates S ltac:(lia)) as Hm.
      set (middle := py_slice candidates (Some S) (Some (- S))) in *.
      destruct (Z.ltb_spec S (len middle)) as [Hbig|Hsmall].
      * destruct (random_sample_ok g middle (Z.min S (len middle)))
          as (xs & g' & -> & Hxs & _); [lia|].
        eexists _, g'. split; [reflexivity|].
        rewrite !len_app, Hhead, Htail, Hxs. unfold len at 1. simpl. lia.
      * eexists _, g. split; [reflexivity|].
        rewrite !len_app, Hhead, Htail. unfold len at 1. simpl. lia.
    + destruct (Z.leb_spec (len candidates) (2 * S)) as [_|]; [|lia].
      eexists _, g. split; [reflexivity|].
      rewrite !len_app, Hhead, Htail. unfold len at 1. simpl. lia.
  - destruct (Z.leb_spec (len candidates) S) as [_|]; [|lia].
    destruct (Z.ltb_spec (S * 2) (len candidates)) as [|_]; [lia|].
    eexists _, g. split; [reflexivity|].
    rewrite !len_app, Hhead. unfold len at 1. simpl. lia.
Qed.

(** X15. The bounds that the smart sampler keeps: for a sample size of at least
    one, a list above the threshold yields between [min(S, N)] and [3S]
    items; and at most [N] items unless [S < N < 2S]. *)
Lemma sample_candidates_bounds {Cand} (g : rng) (cfg_max : Z)
    (candidates : list Cand) (T S : Z) :
  T < len candidates -> 1 <= S ->
  exists out g',
    sample_candidates g cfg_max candidates (Some T) S = (Ok out, g')
    /\ Z.min S (len candidates) <= len out <= 3 * S
    /\ (len candidates <= S \/ 2 * S <= len candidates ->
        len out <= len candidates).
Proof.
  intros HT HS.
  destruct (sample_candidates_size g cfg_max candidates T S HT HS)
    as (out & g' & Heq & Hlen).
  exists out, g'. split; [exact Heq|]. rewrite Hlen. unfold smart_sample_size.
  destruct (Z.leb_spec (len candidates) S);
    destruct (Z.leb_spec (len candidates) (2 * S)); lia.
Qed.

(** C3 at an input where the code departs from it: three candidates,
    threshold 2, sample size 2. The first two and the last two items are
    both taken, the middle item twice, and the result has four items, more
    than the list had. *)
Theorem sample_candidates_overlap (g : rng) (cfg_max : Z) :
  sample_candidates g cfg_max ["a"; "b"; "c"] (Some 2) 2
  = (Ok ["a"; "b"; "b"; "c"], g)
  /\ len ["a"; "b"; "b"; "c"] > len ["a"; "b"; "c"].
Proof. split; [reflexivity | unfold len; simpl; lia]. Qed.

(** The sibling strategy guards against the overlap. *)
Lemma head_tail_no_overlap :
  sample_candidates_head_tail ["a"; "b"; "c"] 2 2 = ["a"; "b"; "c"].
Proof. reflexivity. Qed.

(** With a sample size of zero the whole list comes back, above the bound
    [3S = 0]. *)
Lemma sample_candidates_size_zero (g : rng) (cfg_max : Z) :
  sample_candidates g cfg_max ["a"; "b"; "c"] (Some 2) 0
  = (Ok ["a"; "b"; "c"], g).
Proof. reflexivity. Qed.

(** ** Stratified sampling *)

Section Stratified.
Context {Cand Key : Type} `{EqDecision Key}.
Context (cand_get : Cand -> string -> field_value Key).
Context (strata_key : string).

Local Abbreviation member k := (fun c => in_group cand_get strata_key k c = true).

Lemma member_unique k k' c : member k c -> member k' c -> k = k'.
Proof.
  unfold in_group. intros H1%bool_decide_eq_true H2%bool_decide_eq_true. congruence.
Qed.

Lemma filter_all (P : Cand -> Prop) `{forall x, Decision (P x)} l :
  Forall P l -> filter P l = l.
Proof.
  induction 1 as [|x l Hx _ IH]; [reflexivity|].
  rewrite filter_cons_True by done. by rewrite IH.
Qed.

Lemma filter_none (P : Cand -> Prop) `{forall x, Decision (P x)} l :
  Forall (fun x => ~ P x) l -> filter P l = [].
Proof.
  induction 1 as [|x l Hx _ IH]; [reflexivity|].
  by rewrite filter_cons_False.
Qed.

(** *** The grouping loop *)

Lemma add_distinct_cons (k k' : Key) ks :
  k' <> k -> add_distinct (k' :: ks) k = k' :: add_distinct ks k.
Proof.
  intros Hne. unfold add_distinct.
  destruct (decide (k ∈ ks)) as [Hin|Hin].
  - rewrite !bool_decide_eq_true_2; [reflexivity | done |].
    by apply list_elem_of_further.
  - rewrite !bool_decide_eq_false_2; [reflexivity | done |].
    apply not_elem_of_cons. split; [congruence | done].
Qed.

Lemma strata_append_keys key c (strata : list (Key * list Cand)) :
  map fst (strata_append key c strata) = add_distinct (map fst strata) key.
Proof.
  induction strata as [|[k grp] rest IH]; simpl.
  - reflexivity.
  - destruct (decide (k = key)) as [->|Hne]; simpl.
    + unfold add_distinct. rewrite bool_decide_eq_true_2; [reflexivity|].
      apply list_elem_of_here.
    + rewrite IH. symmetry. by apply add_distinct_cons.
Qed.

Lemma strata_get_append key c k (strata : list (Key * list Cand)) :
  strata_get k (strata_append key c strata)
  = if decide (key = k) then strata_get k strata ++ [c] else strata_get k strata.
Proof.
  induction strata as [|[k' grp] rest IH]; simpl.
  - destruct (decide (key = k)); reflexivity.
  - destruct (decide (k' = key)) as [->|Hne]; simpl.
    + destruct (decide (key = k)); reflexivity.
    + destruct (decide (k' = k)) as [->|Hne'].
      * destruct (decide (key = k)); [congruence | reflexivity].
      * exact IH.
Qed.

(** After the grouping loop the keys of [strata] are the distinct group
    values by first appearance, and the list under a key holds the
    candidates of that group in their order. *)
Lemma grouped_spec (candidates : list Cand) :
  map fst (grouped cand_get candidates strata_key)
  = group_values cand_get strata_key candidates
  /\ forall k,
      strata_get k (grouped cand_get candidates strata_key)
      = filter (member k) candidates.
Proof.
  unfold grouped, group_values.
  induction candidates as [|c l IH] using rev_ind; [done|].
  destruct IH as [IHk IHg].
  rewrite foldl_snoc, omap_app, foldl_app. simpl.
  destruct (group_key_of cand_get c strata_key) as [key|] eqn:Hc; simpl.
  - split.
    + rewrite strata_append_keys, IHk. reflexivity.
    + intros k. rewrite strata_get_append, IHg, filter_app.
      destruct (decide (key = k)) as [->|Hne].
      * rewrite (filter_cons_True (member k) c []); [reflexivity|].
        unfold in_group. by apply bool_decide_eq_true_2.
      * rewrite (filter_cons_False (member k) c []); [by rewrite app_nil_r|].
        unfold in_group. rewrite bool_decide_eq_false_2; [done | congruence].
  - split; [exact IHk|].
    intros k. rewrite IHg, filter_app.
    rewrite (filter_cons_False (member k) c []); [by rewrite app_nil_r|].
    unfold in_group. rewrite bool_decide_eq_false_2; [done | congruence].
Qed.

Lemma add_distinct_NoDup (ks : list Key) k : NoDup ks -> NoDup (add_distinct ks k).
Proof.
  intros Hnd. unfold add_distinct. destruct (decide (k ∈ ks)) as [Hin|Hin].
  - by rewrite bool_decide_eq_true_2.
  - rewrite bool_decide_eq_false_2 by done.
    apply NoDup_app. repeat split; [done | | apply NoDup_singleton].
    intros x Hx Hx'. apply list_elem_of_singleton in Hx'. congruence.
Qed.

Lemma group_values_NoDup (l : list Cand) :
  NoDup (group_values cand_get strata_key l).
Proof.
  unfold group_values.
  generalize (omap (fun c => group_key_of cand_get c strata_key) l). intros ks.
  induction ks as [|k ks IH] using rev_ind; [constructor|].
  rewrite foldl_snoc. by apply add_distinct_NoDup.
Qed.

Lemma strata_get_absent k (strata : list (Key * list Cand)) :
  k ∉ map fst strata -> strata_get k strata = [].
Proof.
  induction strata as [|[k' grp] rest IH]; simpl; [done|].
  intros Hnot. apply not_elem_of_cons in Hnot as [Hne Hnot].
  destruct (decide (k' = k)) as [->|_]; [done | by apply IH].
Qed.

Lemma strata_get_present k grp (strata : list (Key * list Cand)) :
  NoDup (map fst strata) -> (k, grp) ∈ strata -> strata_get k strata = grp.
Proof.
  induction strata as [|[k' grp'] rest IH]; simpl; intros Hnd Hin.
  - by apply not_elem_of_nil in Hin.
  - apply NoDup_cons in Hnd as [Hnotin Hnd].
    apply elem_of_cons in Hin as [Heq|Hin].
    + injection Heq as -> ->. by rewrite decide_True.
    + destruct (decide (k' = k)) as [->|Hne]; [|by apply IH].
      exfalso. apply Hnotin. apply list_elem_of_fmap. exists (k, grp). done.
Qed.

Lemma grouped_keyed (candidates : list Cand) :
  keyed cand_get strata_key (grouped cand_get candidates strata_key).
Proof.
  destruct (grouped_spec candidates) as [Hk Hg].
  pose proof (group_values_NoDup candidates) as Hnd. rewrite <- Hk in Hnd.
  unfold keyed. apply Forall_forall. intros [k grp] Hin. simpl.
  rewrite <- (strata_get_present k grp _ Hnd Hin), Hg.
  apply Forall_forall. intros c Hc. by apply list_elem_of_filter in Hc as [Hc _].
Qed.

(** *** The sampling loop *)

Lemma sample_strata_spec (K : Z) (strata : list (Key * list Cand)) :
  0 <= K ->
  forall g sampled,
  exists outs g',
    sample_strata g (map snd strata) K sampled = (Ok (sampled ++ concat outs), g')
    /\ Forall2 (drawn K) strata outs.
Proof.
  intros HK. induction strata as [|[k grp] rest IH]; intros g sampled; simpl.
  - exists [], g. simpl. rewrite app_nil_r. split; [reflexivity | constructor].
  - destruct (Z.leb_spec (len grp) K) as [Hle|Hgt].
    + destruct (IH g (sampled ++ grp)) as (outs & g' & -> & Hall).
      exists (grp :: outs), g'. simpl. rewrite <- app_assoc. split; [reflexivity|].
      constructor; [|exact Hall]. unfold drawn. simpl. repeat split; [lia | done].
    + destruct (random_sample_ok g grp K) as (xs & g1 & -> & Hlen & Hsub); [lia|].
      destruct (IH g1 (sampled ++ xs)) as (outs & g' & -> & Hall).
      exists (xs :: outs), g'. simpl. rewrite <- app_assoc. split; [reflexivity|].
      constructor; [|exact Hall]. unfold drawn. simpl.
      split; [lia|]. split; [intros; lia | exact Hsub].
Qed.

(** What the result holds of one group. *)
Lemma drawn_per_group (K : Z) (strata : list (Key * list Cand)) outs key :
  0 <= K -> NoDup (map fst strata) -> keyed cand_get strata_key strata ->
  Forall2 (drawn K) strata outs ->
  len (filter (member key) (concat outs)) = Z.min (len (strata_get key strata)) K
  /\ (len (strata_get key strata) <= K ->
      filter (member key) (concat outs) = strata_get key strata).
Proof.
  intros HK Hnd Hkeyed Hall. revert Hnd Hkeyed.
  induction Hall as [|[k grp] o rest outs Hd Hall IH]; intros Hnd Hkeyed; simpl.
  - split; [unfold len; simpl; lia | done].
  - apply NoDup_cons in Hnd as [Hnotin Hnd].
    apply Forall_cons in Hkeyed as [Hgrp Hkeyed]. simpl in Hgrp.
    destruct Hd as (Hlen & Hwhole & Hsub). simpl in Hlen, Hwhole, Hsub.
    specialize (IH Hnd Hkeyed) as [IHlen IHwhole].
    rewrite filter_app, len_app.
    destruct (decide (k = key)) as [->|Hne].
    + rewrite (filter_all (member key) o) by (by apply Hsub).
      rewrite (strata_get_absent key rest Hnotin) in IHlen, IHwhole.
      assert (filter (member key) (concat outs) = []) as Hrest.
      { apply IHwhole. unfold len. simpl. lia. }
      rewrite Hrest, app_nil_r. split; [unfold len at 2; simpl; lia|].
      exact Hwhole.
    + assert (filter (member key) o = []) as ->.
      { apply filter_none. apply Hsub in Hgrp.
        eapply Forall_impl; [exact Hgrp|]. intros c Hk Hkey. simpl in Hk.
        apply Hne. exact (member_unique _ _ _ Hk Hkey). }
      simpl. split; [unfold len at 1; simpl; lia | exact IHwhole].
Qed.

(** The size of the result, group by group. *)
Lemma drawn_total (K : Z) (strata : list (Key * list Cand)) outs :
  NoDup (map fst strata) -> Forall2 (drawn K) strata outs ->
  len (concat outs)
  = sum_Z (map (fun k => Z.min (len (strata_get k strata)) K) (map fst strata)).
Proof.
  intros Hnd Hall. revert Hnd.
  induction Hall as [|[k grp] o rest outs Hd Hall IH]; intros Hnd; simpl.
  - reflexivity.
  - apply NoDup_cons in Hnd as [Hnotin Hnd].
    destruct Hd as (Hlen & _). simpl in Hlen.
    rewrite len_app, Hlen, decide_True by done. f_equal.
    rewrite (IH Hnd). f_equal. apply map_ext_in. intros k' Hin.
    destruct (decide (k = k')) as [->|Hne]; [|reflexivity].
    exfalso. apply Hnotin. by apply list_elem_of_In.
Qed.

(** *** The grouping loop and unhashable values *)

Lemma group_loop_hashable (l : list Cand) (strata : list (Key * list Cand)) :
  all_hashable cand_get strata_key l ->
  group_loop cand_get l strata_key strata
  = Ok (foldl (fun strata candidate =>
                 match group_key_of cand_get candidate strata_key with
                 | Some key => strata_append key candidate strata
                 | None => strata
                 end) strata l).
Proof.
  intros Hall. revert strata.
  induction Hall as [|c l Hc _ IH]; intros strata; simpl; [reflexivity|].
  unfold group_key_of.
  destruct (cand_get c strata_key); [apply IH | apply IH | discriminate].
Qed.

Lemma group_by_stratum_hashable (l : list Cand) :
  all_hashable cand_get strata_key l ->
  group_by_stratum cand_get l strata_key = Ok (grouped cand_get l strata_key).
Proof. apply group_loop_hashable. Qed.

(** The loop raises [TypeError] when it reaches an unhashable value. *)
Lemma group_loop_unhashable (l : list Cand) (strata : list (Key * list Cand)) :
  ~ all_hashable cand_get strata_key l ->
  exists e,
    group_loop cand_get l strata_key strata = Raise e
    /\ exn_type e = "TypeError".
Proof.
  revert strata. induction l as [|c l IH]; intros strata Hnot; simpl.
  - exfalso. apply Hnot. constructor.
  - destruct (cand_get c strata_key) as [|key|ty] eqn:Hc.
    + apply IH. intros Hl. apply Hnot. constructor; [by rewrite Hc | exact Hl].
    + apply IH. intros Hl. apply Hnot. constructor; [by rewrite Hc | exact Hl].
    + eexists. split; reflexivity.
Qed.

Lemma stratified_unhashable (g : rng) (l : list Cand) (K : Z) :
  ~ all_hashable cand_get strata_key l ->
  exists e,
    sample_candidates_stratified cand_get g l strata_key K = (Raise e, g)
    /\ exn_type e = "TypeError".
Proof.
  intros Hnot. unfold sample_candidates_stratified, group_by_stratum.
  destruct (group_loop_unhashable l [] Hnot) as (e & -> & He). eauto.
Qed.


End Stratified.

Lemma catalog_hashable : all_hashable dict_get "category" catalog.
Proof. repeat constructor. Qed.


(** On the catalog with a cap of two: two of the three cases and the one
    cable; the product without a category belongs to no group. *)
Lemma stratified_catalog_example :
  fst (sample_candidates_stratified dict_get [3; 1]%nat catalog "category" 2)
  = Ok [product 1 (PyStr "cases"); product 5 (PyStr "cases");
        product 2 (PyStr "cables")]
  /\ group_values dict_get "category" catalog = [KeyStr "cases"; KeyStr "cables"].
Proof. split; vm_compute; reflexivity. Qed.

(** C8, as stated, fails in two ways. With a negative cap every group is
    larger than the cap, and [random.sample] rejects a negative size: the
    call raises [ValueError] and returns no list. And a candidate that holds
    a list under the grouping field makes the grouping loop raise
    [TypeError], whatever the cap. *)
Lemma stratified_sample_raises :
  (exists e,
     fst (sample_candidates_stratified dict_get [] catalog "category" (-1))
     = Raise e
     /\ is_ValueError e = true)
  /\ (exists e,
       fst (sample_candidates_stratified dict_get [] tagged_catalog "category" 2)
       = Raise e
       /\ exn_type e = "TypeError").
Proof. split; eexists; split; vm_compute; reflexivity. Qed.

(** ** Configuration *)

Section Configure.
Context (validate : string -> pyval -> option pyval).
Context (field_default : string -> pyval).
Context (inherited : string -> bool).
Context (assign_other : string -> pyval -> XRayConfig -> result XRayConfig).

Local Abbreviation configure' :=
  (configure validate field_default inherited assign_other).
Local Abbreviation configure_update' := (configure_update inherited assign_other).

Lemma kwargs_get_elem name v (kwargs : list (string * pyval)) :
  kwargs_get name kwargs = Some v -> (name, v) ∈ kwargs.
Proof.
  induction kwargs as [|[k w] rest IH]; simpl; [discriminate|].
  destruct (decide (k = name)) as [->|Hne].
  - intros [= ->]. apply list_elem_of_here.
  - intros H. apply list_elem_of_further. by apply IH.
Qed.

Lemma kwargs_get_recognized name (kwargs : list (string * pyval)) :
  name ∈ fields -> kwargs_get name (recognized kwargs) = kwargs_get name kwargs.
Proof.
  intros Hname. unfold recognized.
  induction kwargs as [|[k w] rest IH]; [reflexivity|].
  destruct (decide (k ∈ fields)) as [Hk|Hk].
  - rewrite filter_cons_True by done. simpl. by rewrite IH.
  - rewrite filter_cons_False by done. simpl.
    destruct (decide (k = name)) as [->|Hne]; [done | exact IH].
Qed.

(** The constructor looks at the keywords of declared fields only. *)
Lemma init_fields_recognized fs (kwargs : list (string * pyval)) obj :
  Forall (fun f => f ∈ fields) fs ->
  init_fields validate field_default fs (recognized kwargs) obj
  = init_fields validate field_default fs kwargs obj.
Proof.
  intros Hfs. revert obj. induction Hfs as [|f fs Hf _ IH]; intros obj; simpl.
  - reflexivity.
  - rewrite kwargs_get_recognized by done.
    destruct (kwargs_get f kwargs) as [v|]; [|apply IH].
    destruct (validate_field validate f v); [apply IH | reflexivity].
Qed.

(** It succeeds when the values given for declared fields are valid. *)
Lemma init_fields_valid fs (kwargs : list (string * pyval)) obj :
  Forall (fun f => f ∈ fields) fs -> all_valid validate kwargs ->
  exists c, init_fields validate field_default fs kwargs obj = Ok c.
Proof.
  intros Hfs Hvalid. revert obj. induction Hfs as [|f fs Hf _ IH]; intros obj; simpl.
  - eauto.
  - destruct (kwargs_get f kwargs) as [v|] eqn:Hget; [|apply IH].
    apply kwargs_get_elem in Hget. unfold all_valid in Hvalid.
    rewrite Forall_forall in Hvalid.
    destruct (Hvalid (f, v) Hget Hf) as [v' Hv']. simpl in Hv'. rewrite Hv'.
    apply IH.
Qed.

Lemma fields_declared : Forall (fun f => f ∈ fields) fields.
Proof. apply Forall_forall. done. Qed.

Lemma hasattr_field (c : XRayConfig) key : key ∈ fields -> hasattr inherited c key = true.
Proof. intros H. unfold hasattr. by rewrite bool_decide_eq_true_2. Qed.

Lemma setattr_field (c : XRayConfig) key value :
  key ∈ fields -> setattr assign_other c key value = Ok (assign c key value).
Proof. intros H. unfold setattr. by rewrite bool_decide_eq_true_2. Qed.

(** The update loop stops at the first keyword that names no attribute of
    the object, with the keywords before it assigned. *)
Lemma configure_update_stops pre key value post (c : XRayConfig) :
  Forall (fun kv => fst kv ∈ fields) pre ->
  hasattr inherited (apply_options pre c) key = false ->
  configure_update' (pre ++ (key, value) :: post) c
  = (Raise (unknown_option_error key), apply_options pre c).
Proof.
  intros Hpre. revert c. induction Hpre as [|[k v] pre Hk _ IH]; intros c Hkey; simpl.
  - simpl in Hkey. by rewrite Hkey.
  - simpl in Hk. rewrite hasattr_field, setattr_field by done. by apply IH.
Qed.

Lemma configure_update_all (kwargs : list (string * pyval)) (c : XRayConfig) :
  Forall (fun kv => fst kv ∈ fields) kwargs ->
  configure_update' kwargs c = (Ok (apply_options kwargs c), apply_options kwargs c).
Proof.
  intros Hall. revert c. induction Hall as [|[k v] rest Hk _ IH]; intros c; simpl.
  - reflexivity.
  - simpl in Hk. rewrite hasattr_field, setattr_field by done. apply IH.
Qed.

(** A keyword that names an attribute of the object without naming a field
    passes the test of the update loop: what happens is what the assignment
    does, and the loop goes on if the assignment returns. *)
Lemma configure_update_attribute pre key value post (c : XRayConfig) :
  Forall (fun kv => fst kv ∈ fields) pre -> key ∉ fields ->
  hasattr inherited (apply_options pre c) key = true ->
  configure_update' (pre ++ (key, value) :: post) c
  = match assign_other key value (apply_options pre c) with
    | Ok c' => configure_update' post c'
    | Raise e => (Raise e, apply_options pre c)
    end.
Proof.
  intros Hpre Hnf. revert c.
  induction Hpre as [|[k v] pre Hk _ IH]; intros c Hkey; simpl.
  - simpl in Hkey. rewrite Hkey. unfold setattr.
    by rewrite bool_decide_eq_false_2.
  - simpl in Hk. rewrite hasattr_field, setattr_field by done. by apply IH.
Qed.

(** A call with an unknown keyword splits at the first such keyword. *)
Lemma first_unknown (kwargs : list (string * pyval)) :
  has_unknown kwargs ->
  exists pre key value post,
    kwargs = pre ++ (key, value) :: post
    /\ Forall (fun kv => fst kv ∈ fields) pre /\ key ∉ fields.
Proof.
  intros (kv & Hin & Hunk).
  induction kwargs as [|[k v] rest IH]; [by apply not_elem_of_nil in Hin|].
  destruct (decide (k ∈ fields)) as [Hk|Hk].
  - apply elem_of_cons in Hin as [->|Hin]; [done|].
    destruct (IH Hin) as (pre & key & value & post & -> & Hpre & Hkey).
    exists ((k, v) :: pre), key, value, post. split; [reflexivity|].
    split; [by constructor | done].
  - exists [], k, v, rest. split; [reflexivity|]. split; [constructor | done].
Qed.

Lemma hasattr_any (c c' : XRayConfig) key :
  hasattr inherited c key = hasattr inherited c' key.
Proof. reflexivity. Qed.


End Configure.



(** * Further properties *)

(** ** Data model *)

Lemma insert_sorted_front x l :
  nondecreasing (x :: l) = true -> insert_sorted x l = x :: l.
Proof.
  destruct l as [|y l]; simpl; [reflexivity|].
  intros H%andb_true_iff. destruct H as [Hxy _]. by rewrite Hxy.
Qed.

Lemma sorted_fixes_nondecreasing l : nondecreasing l = true -> sorted l = l.
Proof.
  induction l as [|x l IH]; [reflexivity|]. intros H.
  unfold sorted in *. simpl foldr.
  assert (nondecreasing l = true) as Hl.
  { destruct l as [|y l]; [reflexivity|]. simpl in H.
    apply andb_true_iff in H. apply H. }
  rewrite (IH Hl). by apply insert_sorted_front.
Qed.

Lemma insert_sorted_nondecreasing x l :
  nondecreasing l = true -> nondecreasing (insert_sorted x l) = true.
Proof.
  induction l as [|y l IH]; [reflexivity|]. intros H. simpl insert_sorted.
  destruct (Z.leb_spec x y) as [Hxy|Hxy].
  - simpl. rewrite (proj2 (Z.leb_le x y) Hxy). exact H.
  - assert (nondecreasing l = true) as Hl.
    { destruct l as [|z l]; [reflexivity|]. simpl in H.
      apply andb_true_iff in H. apply H. }
    specialize (IH Hl).
    destruct l as [|z l]; simpl.
    + rewrite (proj2 (Z.leb_le y x)) by lia. reflexivity.
    + simpl in IH, H. apply andb_true_iff in H as [Hyz _].
      destruct (Z.leb_spec x z).
      * rewrite (proj2 (Z.leb_le y x)) by lia. exact IH.
      * rewrite Hyz. exact IH.
Qed.

Lemma sorted_nondecreasing l : nondecreasing (sorted l) = true.
Proof.
  induction l as [|x l IH]; [reflexivity|].
  unfold sorted in *. simpl. by apply insert_sorted_nondecreasing.
Qed.

(** X1. The validator of the bundle accepts a list of steps exactly when
    their sequence numbers never decrease along the list -- equal numbers
    and gaps pass -- and rejects every other list with an error that is a
    [ValueError]. *)
Theorem validate_steps_accepts_nondecreasing (l : list StepModel) :
  (validate_steps l = Ok l <-> nondecreasing (map sequence l) = true)
  /\ (nondecreasing (map sequence l) = false ->
      exists e, validate_steps l = Raise e /\ is_ValueError e = true).
Proof.
  assert (map sequence l = sorted (map sequence l)
          <-> nondecreasing (map sequence l) = true) as Hiff.
  { split.
    - intros ->. apply sorted_nondecreasing.
    - intros H. symmetry. by apply sorted_fixes_nondecreasing. }
  unfold validate_steps. destruct l as [|s l]; [split; [done | discriminate]|].
  set (seqs := map sequence (s :: l)) in *.
  destruct (decide (seqs = sorted seqs)) as [Heq|Hne].
  - rewrite bool_decide_eq_false_2 by (intros H; by apply H).
    split; [split; [intros _; by apply Hiff | done]|].
    intros Hf. apply Hiff in Heq. congruence.
  - rewrite bool_decide_eq_true_2 by done.
    split; [split; [discriminate|]|].
    + intros H. apply Hiff in H. done.
    + intros _. eexists. split; reflexivity.
Qed.

(** X2. [reduction_rate] is absent exactly when [candidates_in] is unset
    or zero or [candidates_out] is unset; in every other case it is a
    number. *)
Theorem reduction_rate_none_iff {pyfloat : Type} (truediv : Z -> Z -> pyfloat)
    (s : StepModel) :
  reduction_rate truediv s = None
  <-> candidates_in s = None \/ candidates_in s = Some 0 \/ candidates_out s = None.
Proof.
  unfold reduction_rate.
  destruct (candidates_in s) as [i|], (candidates_out s) as [o|];
    try (split; [intros _|intros _; reflexivity]; auto; fail).
  - destruct (Z.eqb_spec i 0) as [->|Hne]; simpl.
    + split; auto.
    + split; [discriminate|]. intros [H|[H|H]]; congruence.
Qed.

Lemma validate_steps_accepts_nondecreasing_witness :
  validate_steps [StepModel_init 1 "a" LLM 0; StepModel_init 2 "b" LLM 0;
                  StepModel_init 3 "c" LLM 5]
  = Ok [StepModel_init 1 "a" LLM 0; StepModel_init 2 "b" LLM 0;
        StepModel_init 3 "c" LLM 5]
  /\ exists e,
      validate_steps [StepModel_init 1 "a" LLM 1; StepModel_init 2 "b" LLM 0]
      = Raise e
      /\ is_ValueError e = true.
Proof.
  split.
  - apply (proj1 (validate_steps_accepts_nondecreasing _)). reflexivity.
  - apply (proj2 (validate_steps_accepts_nondecreasing _)). reflexivity.
Defined.

Lemma reduction_rate_none_iff_witness :
  reduction_rate float_truediv step_0_to_0 = None.
Proof.
  apply (proj2 (reduction_rate_none_iff float_truediv step_0_to_0)).
  right. left. reflexivity.
Defined.

(** ** Configuration *)

Lemma rstrip_slash_not_ending s : ends_with_slash (rstrip_slash s) = false.
Proof.
  induction s as [|c rest IH]; [reflexivity|]. simpl.
  destruct (rstrip_slash rest) as [|c' r'] eqn:E.
  - destruct (Ascii.eqb c "/") eqn:Hc; simpl; [reflexivity | exact Hc].
  - exact IH.
Qed.

Lemma append_empty (x : string) : "" +:+ x = x.
Proof. reflexivity. Qed.

Lemma append_String c (s x : string) : String c s +:+ x = String c (s +:+ x).
Proof. reflexivity. Qed.

Lemma rstrip_slash_suffix s : exists n, s = rstrip_slash s +:+ slashes n.
Proof.
  induction s as [|c rest [n IH]]; [by exists O|]. simpl.
  destruct (rstrip_slash rest) as [|c' r'] eqn:E.
  - rewrite append_empty in IH. destruct (Ascii.eqb_spec c "/") as [->|Hne].
    + exists (S n). rewrite append_empty. simpl. by rewrite <- IH.
    + exists n. rewrite append_String, append_empty. by rewrite <- IH.
  - exists n. rewrite append_String. by rewrite <- IH.
Qed.

Lemma rstrip_slash_fixes s : ends_with_slash s = false -> rstrip_slash s = s.
Proof.
  induction s as [|c rest IH]; [reflexivity|]. simpl.
  destruct rest as [|c' r'].
  - intros ->. reflexivity.
  - intros H. rewrite (IH H). reflexivity.
Qed.

(** X3. The validator of [api_url] removes the trailing slashes and
    nothing else: the result does not end with a slash, the input is the
    result followed by slashes only, a URL without a trailing slash is
    unchanged, and validating twice is validating once. *)
Theorem validate_api_url_strips (v : string) :
  ends_with_slash (validate_api_url v) = false
  /\ (exists n, v = validate_api_url v +:+ slashes n)
  /\ (ends_with_slash v = false -> validate_api_url v = v)
  /\ validate_api_url (validate_api_url v) = validate_api_url v.
Proof.
  unfold validate_api_url. split; [apply rstrip_slash_not_ending|].
  split; [apply rstrip_slash_suffix|]. split; [apply rstrip_slash_fixes|].
  apply rstrip_slash_fixes, rstrip_slash_not_ending.
Qed.

Lemma validate_api_url_strips_witness :
  validate_api_url "http://localhost:8000//" = "http://localhost:8000"
  /\ validate_api_url "http://localhost:8000" = "http://localhost:8000".
Proof.
  split; [reflexivity|].
  exact (proj1 (proj2 (proj2 (validate_api_url_strips "http://localhost:8000")))
           eq_refl).
Defined.

Section Objects.
Context (validate : string -> pyval -> option pyval).
Context (field_default : string -> pyval).
Context (inherited : string -> bool).
Context (assign_other : string -> pyval -> XRayConfig -> result XRayConfig).

(** What the constructor leaves under a name, field by field. *)
Lemma init_fields_lookup fs (kwargs : list (string * pyval)) obj c name :
  init_fields validate field_default fs kwargs obj = Ok c ->
  NoDup fs ->
  (name ∉ fs -> c !! name = obj !! name)
  /\ (name ∈ fs ->
      match kwargs_get name kwargs with
      | None => c !! name = Some (field_default name)
      | Some v => exists v', validate_field validate name v = Ok v'
                             /\ c !! name = Some v'
      end).
Proof.
  revert obj. induction fs as [|f fs IH]; intros obj Hinit Hnd; simpl in Hinit.
  - injection Hinit as <-. split; [done|]. intros H. by apply not_elem_of_nil in H.
  - apply NoDup_cons in Hnd as [Hf Hnd].
    destruct (kwargs_get f kwargs) as [v|] eqn:Hget.
    + destruct (validate_field validate f v) as [v'|] eqn:Hv; [|discriminate].
      destruct (IH _ Hinit Hnd) as [Hout Hin]. split.
      * intros Hname. apply not_elem_of_cons in Hname as [Hne Hname].
        rewrite (Hout Hname). by apply lookup_insert_ne.
      * intros Hname. apply elem_of_cons in Hname as [->|Hname]; [|by apply Hin].
        rewrite Hget. exists v'. split; [done|].
        rewrite (Hout Hf). apply lookup_insert_eq.
    + destruct (IH _ Hinit Hnd) as [Hout Hin]. split.
      * intros Hname. apply not_elem_of_cons in Hname as [Hne Hname].
        rewrite (Hout Hname). by apply lookup_insert_ne.
      * intros Hname. apply elem_of_cons in Hname as [->|Hname]; [|by apply Hin].
        rewrite Hget, (Hout Hf). apply lookup_insert_eq.
Qed.

Lemma fields_NoDup : NoDup fields.
Proof. apply (bool_decide_unpack _). vm_compute. exact I. Qed.

Lemma validate_field_other f v :
  f <> "api_url" ->
  validate_field validate f v
  = match validate f v with
    | Some v' => Ok v'
    | None => Raise (ValidationError "validation error for XRayConfig")
    end.
Proof.
  intros Hf. unfold validate_field, run_field_validator.
  destruct (validate f v); [|reflexivity]. by rewrite bool_decide_eq_false_2.
Qed.

Lemma validate_field_api_url v w :
  validate_field validate "api_url" v = Ok w ->
  exists s, validate "api_url" v = Some (PyStr s) /\ w = PyStr (validate_api_url s).
Proof.
  unfold validate_field, run_field_validator.
  destruct (validate "api_url" v) as [v'|]; [|discriminate].
  rewrite bool_decide_eq_true_2 by reflexivity.
  destruct v'; try discriminate. intros [= <-]. eauto.
Qed.

(** X4. A configuration object that the constructor returns holds, for
    each declared field, the default when no value was given for it, and
    otherwise the value that pydantic's validation of the field returned;
    for [api_url] that value is a string and what is stored is the string
    with its trailing slashes removed by [validate_api_url], so the stored
    URL never ends with a slash, and a URL that pydantic passes as it is is
    stored stripped. The object holds nothing under any other name, so
    unknown keywords leave no trace. *)
Theorem XRayConfig_init_fields (kwargs : list (string * pyval)) (c : XRayConfig) :
  XRayConfig_init validate field_default kwargs = Ok c ->
  (forall f, f ∈ fields -> kwargs_get f kwargs = None ->
             getattr c f = field_default f)
  /\ (forall f v, f ∈ fields -> f <> "api_url" -> kwargs_get f kwargs = Some v ->
                  validate f v = Some (getattr c f))
  /\ (forall v, kwargs_get "api_url" kwargs = Some v ->
        exists s,
          validate "api_url" v = Some (PyStr s)
          /\ getattr c "api_url" = PyStr (validate_api_url s)
          /\ ends_with_slash (url_text (getattr c "api_url")) = false)
  /\ (forall s, kwargs_get "api_url" kwargs = Some (PyStr s) ->
        validate "api_url" (PyStr s) = Some (PyStr s) ->
        getattr c "api_url" = PyStr (rstrip_slash s))
  /\ (forall name, name ∉ fields -> c !! name = None).
Proof.
  intros Hinit. unfold XRayConfig_init in Hinit.
  pose proof (fun name => init_fields_lookup fields kwargs ∅ c name Hinit fields_NoDup)
    as H.
  assert ("api_url" ∈ fields) as Hurl by (by apply (bool_decide_unpack _)).
  assert (forall v, kwargs_get "api_url" kwargs = Some v ->
            exists s,
              validate "api_url" v = Some (PyStr s)
              /\ getattr c "api_url" = PyStr (validate_api_url s)) as Hstored.
  { intros v Hget. destruct (H "api_url") as [_ Hin]. specialize (Hin Hurl).
    rewrite Hget in Hin. destruct Hin as (v' & Hv & Hc).
    destruct (validate_field_api_url v v' Hv) as (s & Hs & ->).
    exists s. split; [exact Hs|]. unfold getattr. by rewrite Hc. }
  split; [|split; [|split; [|split]]].
  - intros f Hf Hget. destruct (H f) as [_ Hin]. specialize (Hin Hf).
    rewrite Hget in Hin. unfold getattr. by rewrite Hin.
  - intros f v Hf Hne Hget. destruct (H f) as [_ Hin]. specialize (Hin Hf).
    rewrite Hget in Hin. destruct Hin as (v' & Hv & Hc).
    rewrite validate_field_other in Hv by exact Hne.
    unfold getattr. rewrite Hc. simpl.
    destruct (validate f v); [by injection Hv as -> | discriminate].
  - intros v Hget. destruct (Hstored v Hget) as (s & Hs & Hc).
    exists s. split; [exact Hs|]. split; [exact Hc|].
    rewrite Hc. simpl. apply rstrip_slash_not_ending.
  - intros s Hget Hpass. destruct (Hstored _ Hget) as (s' & Hs & Hc).
    rewrite Hpass in Hs. injection Hs as <-. exact Hc.
  - intros name Hname. destruct (H name) as [Hout _]. by rewrite (Hout Hname).
Qed.

Lemma kwargs_get_absent name (kwargs : list (string * pyval)) :
  name ∉ map fst kwargs -> kwargs_get name kwargs = None.
Proof.
  induction kwargs as [|[k v] rest IH]; simpl; [done|].
  intros H. apply not_elem_of_cons in H as [Hne H].
  destruct (decide (k = name)); [congruence | by apply IH].
Qed.

Lemma apply_options_lookup (kwargs : list (string * pyval)) (c : XRayConfig) name :
  NoDup (map fst kwargs) ->
  apply_options kwargs c !! name
  = match kwargs_get name kwargs with Some v => Some v | None => c !! name end.
Proof.
  revert c. induction kwargs as [|[k v] rest IH]; intros c Hnd; [reflexivity|].
  simpl in Hnd. apply NoDup_cons in Hnd as [Hk Hnd].
  unfold apply_options in *. simpl. rewrite (IH _ Hnd). unfold assign. simpl.
  destruct (decide (k = name)) as [->|Hne].
  - rewrite (kwargs_get_absent _ _ Hk). apply lookup_insert_eq.
  - destruct (kwargs_get name rest); [reflexivity | by apply lookup_insert_ne].
Qed.

(** X6. On an existing configuration object, a call of [configure] whose
    keywords all name declared fields returns the object with each listed
    field holding the value given -- as given, whatever the constructor's
    validation would make of it -- and every other field as it was. *)
Theorem configure_update_assigns (kwargs : list (string * pyval)) (c : XRayConfig) :
  Forall (fun kv => fst kv ∈ fields) kwargs ->
  NoDup (map fst kwargs) ->
  exists c',
    configure validate field_default inherited assign_other (Some c) kwargs
    = (Ok c', Some c')
    /\ forall name,
        getattr c' name
        = match kwargs_get name kwargs with
          | Some v => v
          | None => getattr c name
          end.
Proof.
  intros Hall Hnd. exists (apply_options kwargs c). split.
  - unfold configure. by rewrite configure_update_all.
  - intros name. unfold getattr. rewrite (apply_options_lookup _ _ _ Hnd).
    by destruct (kwargs_get name kwargs).
Qed.

Lemma init_fields_no_keywords fs obj :
  exists c, init_fields validate field_default fs [] obj = Ok c.
Proof.
  revert obj. induction fs as [|f fs IH]; intros obj; simpl; [eauto | apply IH].
Qed.

(** X5. [get_config] never raises and always leaves a configuration
    object: the existing one, returned as it is, or, when there is none
    (at the start and after [reset_config]), a new one that holds the
    default of every declared field. Asking again returns the same
    object. *)
Theorem get_config_lazy_defaults (_config : option XRayConfig) :
  exists c,
    get_config validate field_default _config = (Ok c, Some c)
    /\ get_config validate field_default (Some c) = (Ok c, Some c)
    /\ (forall c0, _config = Some c0 -> c = c0)
    /\ (_config = None ->
        forall f, f ∈ fields -> getattr c f = field_default f)
    /\ get_config validate field_default (reset_config _config)
       = get_config validate field_default None.
Proof.
  destruct _config as [c0|].
  - exists c0. simpl. repeat split; try done. by intros c1 [= ->].
  - destruct (init_fields_no_keywords fields ∅) as [c Hc].
    unfold reset_config, get_config, XRayConfig_init. rewrite Hc.
    exists c. repeat split; try done.
    intros _ f Hf.
    destruct (init_fields_lookup fields [] ∅ c f Hc fields_NoDup) as [_ Hin].
    specialize (Hin Hf). simpl in Hin. unfold getattr. by rewrite Hin.
Qed.
End Objects.

Lemma XRayConfig_init_fields_witness :
  getattr timeout_config "enabled" = builtin_default "enabled"
  /\ declared_validation "timeout_seconds" (PyInt 20)
     = Some (getattr timeout_config "timeout_seconds")
  /\ getattr timeout_config "api_url" = PyStr "http://xray:8000"
  /\ timeout_config !! "bogus" = None.
Proof.
  assert (XRayConfig_init declared_validation builtin_default timeout_keywords
          = Ok timeout_config) as Hinit by (vm_compute; reflexivity).
  destruct (XRayConfig_init_fields declared_validation builtin_default _ _ Hinit)
    as (Hdefault & Hgiven & _ & Hurl & Hother).
  split; [|split; [|split]].
  - apply Hdefault; [|reflexivity]. by apply (bool_decide_unpack _).
  - apply Hgiven; [|discriminate|reflexivity]. by apply (bool_decide_unpack _).
  - apply (Hurl "http://xray:8000/"); reflexivity.
  - apply Hother. intros H. by apply (bool_decide_eq_true_2 _) in H.
Defined.

Lemma configure_update_assigns_witness :
  exists c',
    configure declared_validation builtin_default BaseModel_attribute BaseModel_assign (Some default_config) update_keywords
    = (Ok c', Some c')
    /\ forall name,
        getattr c' name
        = match kwargs_get name update_keywords with
          | Some v => v
          | None => getattr default_config name
          end.
Proof.
  apply configure_update_assigns.
  - repeat constructor; by apply (bool_decide_unpack _).
  - by apply (bool_decide_unpack _).
Defined.

Lemma get_config_lazy_defaults_witness :
  exists c,
    get_config declared_validation builtin_default None = (Ok c, Some c)
    /\ getattr c "fallback_mode" = PyStr "silent"
    /\ getattr c "max_candidates_full_capture" = PyInt 100.
Proof.
  destruct (get_config_lazy_defaults declared_validation builtin_default None)
    as (c & Hget & _ & _ & Hdefaults & _).
  exists c. split; [exact Hget|]. split.
  - rewrite (Hdefaults eq_refl "fallback_mode"); [reflexivity|].
    by apply (bool_decide_unpack _).
  - rewrite (Hdefaults eq_refl "max_candidates_full_capture"); [reflexivity|].
    by apply (bool_decide_unpack _).
Defined.

(** ** Delivery *)

Lemma mode_is_LOG_only v :
  mode_is v LOG = true -> mode_is v SILENT = false /\ mode_is v RAISE = false.
Proof.
  destruct v as [| | |s| |]; simpl; try discriminate.
  intros H%String.eqb_eq. subst s. split; reflexivity.
Qed.

Lemma mode_is_SILENT_only v :
  mode_is v SILENT = true -> mode_is v LOG = false /\ mode_is v RAISE = false.
Proof.
  destruct v as [| | |s| |]; simpl; try discriminate.
  intros H%String.eqb_eq. subst s. split; reflexivity.
Qed.

(** What [_handle_failure] returns outside raise mode, and what it writes. *)
Lemma handle_failure_returns config net w payload exc :
  mode_is (getattr config "fallback_mode") RAISE = false ->
  _handle_failure config net w payload exc
  = (Ok (mode_is (getattr config "fallback_mode") LOG && can_write net),
     if mode_is (getattr config "fallback_mode") LOG && can_write net
     then mkWorld (http_posts w) (log_files w ++ [(clock net, payload)]) (threads w)
     else w).
Proof.
  intros Hr. unfold _handle_failure, _write_to_log. rewrite Hr.
  destruct (mode_is (getattr config "fallback_mode") SILENT) eqn:Hs.
  - destruct (mode_is_SILENT_only _ Hs) as [-> _]. reflexivity.
  - destruct (mode_is (getattr config "fallback_mode") LOG); [|reflexivity].
    destruct (can_write net); reflexivity.
Qed.

(** X7. In the modes [silent] and [log] (any fallback mode but [raise])
    [send] never raises. It reports success exactly when tracing is off,
    the response is 200 or 201, or the log fallback wrote its file; it
    issues one request when tracing is on and none otherwise; and it writes
    one fallback file, holding the bundle, exactly when tracing is on, the
    request failed, the mode is [log] and the file could be written. *)
Theorem send_reports_outcome (config : XRayConfig) (net : Net) (w : World)
    (payload : IngestPayload) :
  mode_is (getattr config "fallback_mode") RAISE = false ->
  exists w',
    send config net w payload = (Ok (send_reports config net), w')
    /\ http_posts w'
       = (if truthy (getattr config "enabled")
          then http_posts w ++ [payload] else http_posts w)
    /\ log_files w'
       = (if send_logs config net
          then log_files w ++ [(clock net, payload)] else log_files w)
    /\ threads w' = threads w.
Proof.
  intros Hr. unfold send, send_reports, send_logs.
  destruct (truthy (getattr config "enabled")); simpl; [|by exists w].
  set (w1 := mkWorld (http_posts w ++ [payload]) (log_files w) (threads w)).
  destruct (post net) as [code|e]; simpl.
  - destruct ((code =? 200) || (code =? 201)); simpl; [by exists w1|].
    rewrite (handle_failure_returns config net w1 payload None Hr).
    destruct (mode_is (getattr config "fallback_mode") LOG && can_write net);
      eexists; repeat split.
  - rewrite (handle_failure_returns config net w1 payload (Some e) Hr).
    destruct (mode_is (getattr config "fallback_mode") LOG && can_write net);
      eexists; repeat split.
Qed.

Lemma send_reports_outcome_witness :
  exists w',
    send log_config failing no_deliveries empty_bundle
    = (Ok (send_reports log_config failing), w')
    /\ http_posts w'
       = (if truthy (getattr log_config "enabled")
          then http_posts no_deliveries ++ [empty_bundle]
          else http_posts no_deliveries)
    /\ log_files w'
       = (if send_logs log_config failing
          then log_files no_deliveries ++ [(clock failing, empty_bundle)]
          else log_files no_deliveries)
    /\ threads w' = threads no_deliveries.
Proof. apply send_reports_outcome. reflexivity. Defined.

(** X8. In raise mode, with tracing on, a failed request makes [send]
    raise after its one request and without writing a file: the exception
    of the transport when there is one, and after a response other than
    200 and 201 a [RuntimeError] that names the URL. *)
Theorem send_raise_mode (config : XRayConfig) (net : Net) (w : World)
    (payload : IngestPayload) :
  truthy (getattr config "enabled") = true ->
  mode_is (getattr config "fallback_mode") RAISE = true ->
  post_failed (post net) = true ->
  send config net w payload
  = (Raise (delivery_error config net),
     mkWorld (http_posts w ++ [payload]) (log_files w) (threads w)).
Proof.
  intros Hon Hr Hfail. unfold send, delivery_error. rewrite Hon. simpl.
  destruct (mode_is_RAISE_only _ Hr) as [Hs Hl].
  destruct (post net) as [code|e]; simpl in *.
  - destruct ((code =? 200) || (code =? 201)); [discriminate|].
    unfold _handle_failure. rewrite Hs, Hl, Hr. reflexivity.
  - unfold _handle_failure. rewrite Hs, Hl, Hr. reflexivity.
Qed.

Lemma send_raise_mode_witness :
  send raise_config failing no_deliveries empty_bundle
  = (Raise (RuntimeError "Failed to send trace to X-Ray API at http://localhost:8000"),
     mkWorld [empty_bundle] [] []).
Proof. apply (send_raise_mode raise_config failing); reflexivity. Defined.

(** ** Scopes *)

(** The deliveries recorded after [run_exit], for a run that sends a valid
    bundle: those of [send_trace] on the bundle of the exit. *)
Lemma run_exit_world config net now r exc σ :
  auto_send (the_run σ r) = true -> bundle_valid σ r ->
  world (snd (run_exit config net now r exc σ))
  = snd (send_trace config net (world σ) (exit_bundle now exc σ r))
  /\ (forall b, fst (send_trace config net (world σ) (exit_bundle now exc σ r)) = Ok b ->
      fst (run_exit config net now r exc σ) = Ok false).
Proof.
  intros Ha Hv. unfold run_exit, exit_bundle.
  fold (exit_run_object now exc (the_run σ r)).
  set (x := exit_run_object now exc (the_run σ r)). simpl. rewrite Ha.
  rewrite collected_steps_put_run by reflexivity.
  unfold IngestPayload_init. unfold bundle_valid in Hv. rewrite Hv.
  change (world (put_run r x σ)) with (world σ).
  match goal with
  | |- context [send_trace ?c ?n ?w ?p] =>
      destruct (send_trace c n w p) as [[b|e] w']
  end; simpl; split; try reflexivity; try discriminate.
Qed.

(** X9. Leaving a run scope with automatic sending and a valid bundle
    hands the client the completed run -- its status and end time set --
    with the collected steps in their order: in background mode the bundle
    goes to one new thread and [__exit__] returns at once, with no request
    from the caller's flow; in blocking mode with tracing on it is the body
    of the one request issued, whatever the outcome; with tracing off
    nothing is recorded. *)
Theorem run_exit_hands_over_bundle (config : XRayConfig) (net : Net) (now : Z)
    (r : nat) (exc : option exn) (σ : Store) :
  auto_send (the_run σ r) = true -> bundle_valid σ r ->
  let x := run_exit config net now r exc σ in
  let bundle := exit_bundle now exc σ r in
  is_terminal (status (run bundle)) = true
  /\ end_time (run bundle) = Some now
  /\ Models.steps bundle = collected_steps σ r
  /\ (truthy (getattr config "async_mode") = true ->
      fst x = Ok false
      /\ threads (world (snd x)) = threads (world σ) ++ [bundle]
      /\ http_posts (world (snd x)) = http_posts (world σ))
  /\ (truthy (getattr config "async_mode") = false ->
      truthy (getattr config "enabled") = true ->
      http_posts (world (snd x)) = http_posts (world σ) ++ [bundle])
  /\ (truthy (getattr config "async_mode") = false ->
      truthy (getattr config "enabled") = false ->
      fst x = Ok false /\ world (snd x) = world σ).
Proof.
  intros Ha Hv x bundle.
  destruct (run_exit_world config net now r exc σ Ha Hv) as [Hw Hret].
  fold x in Hw, Hret. fold bundle in Hw, Hret.
  split; [by destruct exc|]. split; [reflexivity|]. split; [reflexivity|].
  unfold send_trace in Hw, Hret. split; [|split].
  - intros Hasync. rewrite Hasync in Hw, Hret. rewrite Hw.
    split; [by apply (Hret true)|]. split; reflexivity.
  - intros Hsync Hon. rewrite Hsync in Hw. rewrite Hw.
    by apply send_enabled_posts.
  - intros Hsync Hoff. rewrite Hsync in Hw, Hret. unfold send in Hw, Hret.
    rewrite Hoff in Hw, Hret. simpl in Hw, Hret.
    split; [by apply (Hret true) | exact Hw].
Qed.

Lemma run_exit_hands_over_bundle_witness :
  http_posts (world (snd (run_exit raise_config unreachable 5 run_A None inside_A)))
  = [exit_bundle 5 None inside_A run_A].
Proof.
  pose proof (run_exit_hands_over_bundle raise_config unreachable 5 run_A None
                inside_A eq_refl eq_refl) as (_ & _ & _ & _ & Hsync & _).
  exact (Hsync eq_refl eq_refl).
Defined.

(** X10. When the collected steps are not in sequence order, leaving the
    run scope with automatic sending raises the validation error of the
    bundle -- a [ValueError] -- in every configuration: nothing is handed
    to the client, the run is marked complete all the same, and the
    current run is left as it was, not restored. *)
Theorem run_exit_rejects_unordered (config : XRayConfig) (net : Net) (now : Z)
    (r : nat) (exc : option exn) (σ : Store) :
  auto_send (the_run σ r) = true ->
  nondecreasing (collected_sequences σ r) = false ->
  exists e,
    run_exit config net now r exc σ
    = (Raise e, put_run r (exit_run_object now exc (the_run σ r)) σ)
    /\ is_ValueError e = true
    /\ world (snd (run_exit config net now r exc σ)) = world σ
    /\ get_current_run (snd (run_exit config net now r exc σ)) = get_current_run σ.
Proof.
  intros Ha Hbad. unfold run_exit.
  fold (exit_run_object now exc (the_run σ r)).
  set (x := exit_run_object now exc (the_run σ r)). simpl. rewrite Ha.
  rewrite collected_steps_put_run by reflexivity.
  unfold IngestPayload_init, validate_steps.
  unfold collected_sequences in Hbad.
  destruct (collected_steps σ r) as [|s l] eqn:E; [discriminate|].
  rewrite bool_decide_eq_true_2.
  - eexists. repeat split.
  - intros Heq. rewrite Heq, sorted_nondecreasing in Hbad. discriminate.
Qed.

Lemma run_exit_rejects_unordered_witness :
  exists e,
    run_exit default_config unreachable 6 run_A None after_nested_steps
    = (Raise e,
       put_run run_A (exit_run_object 6 None (the_run after_nested_steps run_A))
         after_nested_steps)
    /\ is_ValueError e = true
    /\ world (snd (run_exit default_config unreachable 6 run_A None
                     after_nested_steps))
       = world after_nested_steps
    /\ get_current_run (snd (run_exit default_config unreachable 6 run_A None
                               after_nested_steps))
       = get_current_run after_nested_steps.
Proof. apply run_exit_rejects_unordered; reflexivity. Defined.

(** X11. Leaving a run scope changes, of the run, its status and its end
    time only: identifier, name, version, start time, metadata and final
    output stay as the block left them, as do the list of steps and the
    sequence counter, and no step scope is touched -- whether [__exit__]
    returns or raises. Without automatic sending it returns [False] and
    records no delivery. *)
Theorem run_exit_completes_only (config : XRayConfig) (net : Net) (now : Z)
    (r : nat) (exc : option exn) (σ : Store) :
  let x := run_exit config net now r exc σ in
  let before := the_run σ r in
  let after := the_run (snd x) r in
  run_model after
  = mark_complete now (match exc with None => SUCCESS | Some _ => FAILURE end)
      None (run_model before)
  /\ final_output (run_model after) = final_output (run_model before)
  /\ metadata (run_model after) = metadata (run_model before)
  /\ end_time (run_model after) = Some now
  /\ steps after = steps before
  /\ _sequence_counter after = _sequence_counter before
  /\ step_ctxs (snd x) = step_ctxs σ
  /\ (forall r', r <> r' -> the_run (snd x) r' = the_run σ r')
  /\ (auto_send before = false -> fst x = Ok false /\ world (snd x) = world σ).
Proof.
  intros x before after. unfold after, x.
  rewrite run_exit_run_object. repeat split.
  - apply run_exit_step_ctxs.
  - intros r' Hne. by apply run_exit_other.
  - destruct (run_exit_returns config net now r exc σ (or_introl H)) as [w ->].
    reflexivity.
  - unfold run_exit. simpl. fold before. rewrite H. reflexivity.
Qed.

Lemma nested_runs_restore_witness :
  get_current_run (run_enter 1%nat (run_enter 0%nat two_runs)) = Some 1%nat
  /\ get_current_run
       (snd (run_exit default_config unreachable 5 1%nat None
               (run_enter 1%nat (run_enter 0%nat two_runs))))
     = Some 0%nat.
Proof.
  pose proof (nested_runs_restore default_config unreachable unreachable 6 5
                None None 0%nat 1%nat two_runs ltac:(discriminate)) as [H1 H2].
  split; [exact H1|]. exact (proj1 (H2 eq_refl)).
Defined.

Lemma nested_steps_restore_witness :
  let s1 := fst (step 11 run_A "outer" RANK inside_A) in
  let s2 := fst (step 12 run_A "inner" FILTER
                   (snd (step 11 run_A "outer" RANK inside_A))) in
  get_current_step
    (snd (step_exit 4 s2 None (step_enter 3 s2 (step_enter 2 s1 two_steps))))
  = Some s1.
Proof.
  intros s1 s2.
  pose proof (nested_steps_restore 2 3 4 5 None None s1 s2 two_steps
                ltac:(vm_compute; discriminate)) as (_ & H & _).
  exact H.
Defined.

Lemma run_exit_completes_only_witness :
  fst (run_exit raise_config unreachable 9 quiet_run None inside_quiet) = Ok false
  /\ world (snd (run_exit raise_config unreachable 9 quiet_run None inside_quiet))
     = world inside_quiet.
Proof.
  pose proof (run_exit_completes_only raise_config unreachable 9 quiet_run None
                inside_quiet) as H.
  cbn zeta in H. destruct H as (_ & _ & _ & _ & _ & _ & _ & _ & H).
  exact (H eq_refl).
Defined.

Lemma do_step_call_update s c σ :
  do_step_call s c σ = update_step_model (step_call_effect c) s σ.
Proof. destruct c; reflexivity. Qed.

(** The setter calls of a block change the model of their step scope as
    [step_calls_effect] says, and nothing else of it. *)
Lemma step_calls_step_object s calls σ :
  the_step (foldl (fun σ c => do_step_call s c σ) σ calls) s
  = mkStepContext (run_context (the_step σ s))
      (step_calls_effect calls (step_model (the_step σ s)))
      (_previous_step_context (the_step σ s)).
Proof.
  revert σ. induction calls as [|c calls IH]; intros σ; simpl.
  - by destruct (the_step σ s).
  - rewrite IH, do_step_call_update, the_step_update. reflexivity.
Qed.

Lemma step_calls_current_run s calls σ :
  get_current_run (foldl (fun σ c => do_step_call s c σ) σ calls)
  = get_current_run σ.
Proof.
  revert σ. induction calls as [|c calls IH]; intros σ; simpl; [reflexivity|].
  rewrite IH. by destruct c.
Qed.

Lemma step_exit_current_run now s exc σ :
  get_current_run (snd (step_exit now s exc σ)) = get_current_run σ.
Proof. unfold step_exit. by destruct exc. Qed.

Lemma step_calls_effect_keeps calls m :
  step_id (step_calls_effect calls m) = step_id m
  /\ run_id (step_calls_effect calls m) = run_id m
  /\ step_name (step_calls_effect calls m) = step_name m
  /\ step_type (step_calls_effect calls m) = step_type m
  /\ sequence (step_calls_effect calls m) = sequence m
  /\ step_start_time (step_calls_effect calls m) = step_start_time m
  /\ step_end_time (step_calls_effect calls m) = step_end_time m.
Proof.
  revert m. induction calls as [|c calls IH]; intros m; [done|].
  unfold step_calls_effect in *. simpl.
  destruct (IH (step_call_effect c m)) as (-> & -> & -> & -> & -> & -> & ->).
  by destruct c.
Qed.

(** X14. One step block, [with run.step(name, ty) as step: ...], leaves in
    the run exactly one more collected step, the one just created, and that
    step carries the identifier of the run, the next sequence number, its
    name and type, the times of entry and exit, and what the setter calls of
    the block stored; if the block raised, its metadata holds the exception
    under ["exception"], replacing whatever the block stored there. The
    block's outcome passes through unchanged -- an exception is never
    swallowed -- and the current step and run are afterwards what they were
    before. *)
Theorem with_step_records (r : nat) (b : step_block) (σ : Store) :
  let s := fresh (dom (step_ctxs σ)) in
  let x := with_step r b σ in
  let m := step_model (the_step (snd x) s) in
  fst x = sb_ends b
  /\ steps (the_run (snd x) r) = steps (the_run σ r) ++ [s]
  /\ m = finished_step_model (id (run_model (the_run σ r)))
           (_sequence_counter (the_run σ r)) b
  /\ run_id m = Some (id (run_model (the_run σ r)))
  /\ sequence m = _sequence_counter (the_run σ r)
  /\ step_name m = sb_name b
  /\ step_type m = sb_type b
  /\ step_start_time m = Some (sb_entered_at b)
  /\ step_end_time m = Some (sb_left_at b)
  /\ (forall e, sb_ends b = Raised e ->
      step_metadata m !! "exception" = Some (exception_entry e))
  /\ get_current_step (snd x) = get_current_step σ
  /\ get_current_run (snd x) = get_current_run σ.
Proof.
  intros s x m.
  destruct (with_step_effect r b σ) as (Hout & Hrun & _).
  fold s in Hrun. fold x in Hout, Hrun.
  set (x0 := the_run σ r) in *.
  set (x1 := mkRunContext (run_model x0) (steps x0) (auto_send x0)
               (_sequence_counter x0 + 1) (_previous_run_context x0)).
  set (sc := mkStepContext r
               (StepModel_init (sb_uuid b) (sb_name b) (sb_type b)
                  (_sequence_counter x0)) None).
  set (σ1 := put_run r x1 (put_step s sc σ)).
  set (σ2 := step_enter (sb_entered_at b) s σ1).
  set (σ3 := foldl (fun σ c => do_step_call s c σ) σ2 (sb_calls b)).
  assert (x = (with_exit (sb_ends b)
                 (fst (step_exit (sb_left_at b) s (escaping (sb_ends b)) σ3)),
               snd (step_exit (sb_left_at b) s (escaping (sb_ends b)) σ3))) as Hx.
  { unfold x, with_step, step. fold s. fold x0. fold x1. fold sc. fold σ1.
    fold σ2. fold σ3. by destruct (step_exit _ _ _ σ3). }
  assert (the_step σ2 s
          = mkStepContext r
              (set_start_time (Some (sb_entered_at b))
                 (StepModel_init (sb_uuid b) (sb_name b) (sb_type b)
                    (_sequence_counter x0)))
              (get_current_step σ)) as H2.
  { unfold σ2, step_enter.
    change (the_step (set_current_step ?v ?y) s) with (the_step y s).
    rewrite the_step_put_step, the_step_update.
    unfold σ1. rewrite the_step_put_run, the_step_put_step. reflexivity. }
  assert (the_step σ3 s
          = mkStepContext r
              (step_calls_effect (sb_calls b)
                 (set_start_time (Some (sb_entered_at b))
                    (StepModel_init (sb_uuid b) (sb_name b) (sb_type b)
                       (_sequence_counter x0))))
              (get_current_step σ)) as H3.
  { unfold σ3. rewrite step_calls_step_object, H2. reflexivity. }
  assert (runs σ3 = runs σ1) as Hr3.
  { apply (touches_step_calls s (sb_calls b) σ1 σ2), touches_step_enter. }
  assert (the_run σ3 r = x1) as Hx1.
  { unfold the_run. rewrite Hr3. unfold σ1. apply the_run_put_run. }
  assert (m = finished_step_model (id (run_model x0)) (_sequence_counter x0) b)
    as Hm.
  { unfold m. rewrite Hx. cbn [snd]. rewrite step_exit_step_object.
    rewrite H3. cbn [run_context step_model]. rewrite Hx1.
    unfold finished_step_model. by destruct (sb_ends b). }
  pose proof (step_calls_effect_keeps (sb_calls b)
                (set_start_time (Some (sb_entered_at b))
                   (StepModel_init (sb_uuid b) (sb_name b) (sb_type b)
                      (_sequence_counter x0))))
    as (_ & _ & Hn & Ht & Hq & Hs & _).
  split; [exact Hout|]. split; [by rewrite Hrun|]. split; [exact Hm|].
  rewrite Hm. unfold finished_step_model.
  repeat split.
  - destruct (sb_ends b); simpl; by rewrite Hq.
  - destruct (sb_ends b); simpl; by rewrite Hn.
  - destruct (sb_ends b); simpl; by rewrite Ht.
  - destruct (sb_ends b); simpl; by rewrite Hs.
  - by destruct (sb_ends b).
  - intros e ->. simpl. apply lookup_insert_eq.
  - rewrite Hx. cbn [snd].
    rewrite (proj2 (step_exit_restores _ _ _ _)), H3. reflexivity.
  - rewrite Hx. cbn [snd]. rewrite step_exit_current_run.
    unfold σ3. rewrite step_calls_current_run. reflexivity.
Qed.

Lemma with_step_records_witness :
  let x := with_step run_A failing_block inside_A in
  fst x = Raised app_error
  /\ step_metadata (step_model (the_step (snd x) (fresh (dom (step_ctxs inside_A)))))
       !! "exception"
     = Some (exception_entry app_error).
Proof.
  pose proof (with_step_records run_A failing_block inside_A) as H.
  cbn zeta in H. destruct H as (Hout & _ & _ & _ & _ & _ & _ & _ & _ & Hexc & _).
  split; [exact Hout | exact (Hexc app_error eq_refl)].
Defined.

(** ** Sampling strategies *)

Lemma sample_candidates_bounds_witness :
  exists out g',
    sample_candidates [2; 0]%nat 100 seven (Some 3) 2 = (Ok out, g')
    /\ Z.min 2 (len seven) <= len out <= 3 * 2
    /\ (len seven <= 2 \/ 2 * 2 <= len seven -> len out <= len seven).
Proof. apply sample_candidates_bounds; unfold len; simpl; lia. Defined.

(** Slices with bounds inside the list are [take] and [drop]. *)
Lemma py_slice_head {A} (l : list A) k :
  0 <= k -> py_slice l None (Some k) = take (Z.to_nat k) l.
Proof.
  intros Hk. unfold py_slice, slice_bound.
  destruct (Z.ltb_spec k 0); [lia|]. rewrite Z.sub_0_r.
  change (drop (Z.to_nat 0) l) with l.
  destruct (Z.le_gt_cases k (Z.of_nat (length l))) as [Hle|Hgt].
  - by rewrite Z.min_l.
  - rewrite Z.min_r by lia. rewrite Nat2Z.id.
    rewrite (take_ge l (length l)) by lia.
    rewrite (take_ge l (Z.to_nat k)) by lia. reflexivity.
Qed.

Lemma py_slice_tail {A} (l : list A) k :
  0 < k <= len l ->
  py_slice l (Some (- k)) None = drop (length l - Z.to_nat k) l.
Proof.
  intros Hk. unfold len in Hk. unfold py_slice, slice_bound.
  destruct (Z.ltb_spec (- k) 0); [|lia].
  rewrite Z.max_r by lia.
  replace (Z.to_nat (- k + Z.of_nat (length l))) with (length l - Z.to_nat k)%nat
    by lia.
  apply take_ge. rewrite length_drop. lia.
Qed.

Lemma py_slice_middle {A} (l : list A) a :
  0 < a -> 2 * a <= len l ->
  py_slice l (Some a) (Some (- a))
  = take (length l - 2 * Z.to_nat a) (drop (Z.to_nat a) l).
Proof.
  intros Ha Hl. unfold len in Hl. unfold py_slice, slice_bound.
  destruct (Z.ltb_spec a 0); [lia|]. destruct (Z.ltb_spec (- a) 0); [|lia].
  rewrite Z.max_r, Z.min_l by lia. f_equal. lia.
Qed.

(** [random.sample] draws without replacement: what it returns is part of
    the population, each member at most as often as it occurs there. *)
Lemma pick_submseteq {A} (k : nat) (g : rng) (pool : list A) :
  fst (pick k g pool) ⊆+ pool.
Proof.
  revert g pool. induction k as [|k IH]; intros g pool; simpl.
  - apply submseteq_nil_l.
  - destruct (draw g) as [r g1].
    destruct (pool !! (r mod length pool)%nat) as [x|] eqn:Hx;
      [|apply submseteq_nil_l].
    specialize (IH g1 (delete (r mod length pool)%nat pool)).
    destruct (pick k g1 (delete (r mod length pool)%nat pool)) as [xs g2]. simpl in *.
    rewrite (delete_Permutation pool _ x Hx). by apply submseteq_skip.
Qed.

Lemma random_sample_part {A} (g : rng) (population : list A) (k : Z) :
  0 <= k <= len population ->
  exists xs g',
    random_sample g population k = (Ok xs, g') /\ len xs = k /\ xs ⊆+ population.
Proof.
  intros Hk. destruct (random_sample_ok g population k Hk) as (xs & g' & Heq & Hlen & _).
  exists xs, g'. split; [exact Heq|]. split; [exact Hlen|].
  unfold random_sample in Heq.
  destruct ((k <? 0) || (len population <? k)); [discriminate|].
  pose proof (pick_submseteq (Z.to_nat k) g population) as Hsub.
  destruct (pick (Z.to_nat k) g population) as [ys g'']. simpl in Hsub.
  by injection Heq as -> ->.
Qed.

(** X16. Above the threshold and with [1 <= S] and [2S < N], the smart
    sampler returns the first [S] candidates, then the last [S], then a part
    of the middle slice: [min(S, N - 2S)] of its items, drawn without
    replacement. The result then repeats no candidate more often than the
    input has it and is never longer than the input. *)
Theorem sample_candidates_shape {Cand} (g : rng) (cfg_max : Z)
    (candidates : list Cand) (T S : Z) :
  T < len candidates -> 1 <= S -> 2 * S < len candidates ->
  exists mid g',
    sample_candidates g cfg_max candidates (Some T) S
    = (Ok (take (Z.to_nat S) candidates
           ++ drop (length candidates - Z.to_nat S) candidates ++ mid), g')
    /\ mid ⊆+ take (length candidates - 2 * Z.to_nat S)
                (drop (Z.to_nat S) candidates)
    /\ len mid = Z.min S (len candidates - 2 * S)
    /\ take (Z.to_nat S) candidates
       ++ drop (length candidates - Z.to_nat S) candidates ++ mid ⊆+ candidates.
Proof.
  intros HT HS H2. pose proof (len_nonneg candidates) as HN.
  unfold sample_candidates.
  destruct (Z.leb_spec (len candidates) T) as [|_]; [lia|].
  destruct (Z.ltb_spec S (len candidates)) as [_|]; [|lia].
  destruct (Z.ltb_spec (S * 2) (len candidates)) as [_|]; [|lia].
  rewrite (Z.min_l S (len candidates)) by lia.
  rewrite (py_slice_head candidates S) by lia.
  rewrite (py_slice_tail candidates S) by lia.
  rewrite (py_slice_middle candidates S) by lia.
  set (head := take (Z.to_nat S) candidates).
  set (tail := drop (length candidates - Z.to_nat S) candidates).
  set (middle := take (length candidates - 2 * Z.to_nat S)
                   (drop (Z.to_nat S) candidates)).
  assert (len middle = len candidates - 2 * S) as Hm.
  { unfold middle, len in *. rewrite length_take, length_drop. lia. }
  assert (candidates = head ++ middle ++ tail) as Hsplit.
  { unfold head, middle, tail.
    rewrite <- (take_drop (Z.to_nat S) candidates) at 1. f_equal.
    rewrite <- (take_drop (length candidates - 2 * Z.to_nat S)
                  (drop (Z.to_nat S) candidates)) at 1.
    f_equal. rewrite drop_drop. f_equal. unfold len in *. lia. }
  assert (forall mid, mid ⊆+ middle -> head ++ tail ++ mid ⊆+ candidates) as Hall.
  { intros mid Hmid. trans (head ++ middle ++ tail); [|by rewrite <- Hsplit].
    apply submseteq_skips_l.
    rewrite (Permutation_app_comm tail mid). by apply submseteq_skips_r. }
  destruct (Z.ltb_spec S (len middle)) as [Hbig|Hsmall].
  - destruct (random_sample_part g middle (Z.min S (len middle)))
      as (xs & g' & -> & Hlen & Hsub); [lia|].
    exists xs, g'. split; [by rewrite <- app_assoc|].
    split; [exact Hsub|]. split; [lia | by apply Hall].
  - exists middle, g. split; [by rewrite <- app_assoc|].
    split; [done|]. split; [lia | by apply Hall].
Qed.

Lemma sample_candidates_shape_witness :
  exists mid g',
    sample_candidates [2; 0]%nat 100 seven (Some 3) 2
    = (Ok (take 2 seven ++ drop 5 seven ++ mid), g')
    /\ mid ⊆+ take 3 (drop 2 seven)
    /\ len mid = Z.min 2 (len seven - 2 * 2)
    /\ take 2 seven ++ drop 5 seven ++ mid ⊆+ seven.
Proof.
  apply (sample_candidates_shape [2; 0]%nat 100 seven 3 2);
    unfold len; simpl; lia.
Defined.

(** X17. When the list is longer than head and tail together, the head
    and tail strategy returns the first [H] candidates followed by the last
    [T] (for [H >= 0] and [T > 0]): [H + T] items in their original order,
    none of them twice. A list that is not longer comes back unchanged. *)
Theorem head_tail_disjoint {Cand} (candidates : list Cand) (H T : Z) :
  (len candidates <= H + T -> sample_candidates_head_tail candidates H T = candidates)
  /\ (0 <= H -> 0 < T -> H + T < len candidates ->
      sample_candidates_head_tail candidates H T
      = take (Z.to_nat H) candidates
        ++ drop (length candidates - Z.to_nat T) candidates
      /\ len (sample_candidates_head_tail candidates H T) = H + T
      /\ sample_candidates_head_tail candidates H T `sublist_of` candidates).
Proof.
  unfold sample_candidates_head_tail. split.
  - intros Hle. by destruct (Z.leb_spec (len candidates) (H + T)); [|lia].
  - intros HH HT Hlt. destruct (Z.leb_spec (len candidates) (H + T)); [lia|].
    rewrite (py_slice_head candidates H) by lia.
    rewrite (py_slice_tail candidates T) by lia.
    split; [reflexivity|]. split.
    + rewrite len_app. unfold len in *. rewrite length_take, length_drop. lia.
    + trans (take (Z.to_nat H) candidates ++ drop (Z.to_nat H) candidates);
        [|by rewrite take_drop].
      apply sublist_app; [done|].
      replace (length candidates - Z.to_nat T)%nat
        with (Z.to_nat H + (length candidates - Z.to_nat T - Z.to_nat H))%nat
        by (unfold len in *; lia).
      rewrite <- drop_drop. apply sublist_drop.
Qed.

Lemma head_tail_disjoint_witness :
  sample_candidates_head_tail seven 2 3 = ["a"; "b"; "e"; "f"; "g"]
  /\ sample_candidates_head_tail seven 5 5 = seven.
Proof.
  destruct (head_tail_disjoint seven 2 3) as [_ Hcut].
  destruct (head_tail_disjoint seven 5 5) as [Hall _].
  split.
  - rewrite (proj1 (Hcut ltac:(lia) ltac:(lia) ltac:(unfold len; simpl; lia))).
    reflexivity.
  - apply Hall. unfold len. simpl. lia.
Defined.

(** X18. With a tail size of zero the head and tail strategy returns, for
    a list longer than the head, the first [H] candidates followed by the
    whole list: the slice of the last zero items is the full list. *)
Theorem head_tail_zero_tail {Cand} (candidates : list Cand) (H : Z) :
  0 <= H -> H < len candidates ->
  sample_candidates_head_tail candidates H 0
  = take (Z.to_nat H) candidates ++ candidates
  /\ len (sample_candidates_head_tail candidates H 0) = H + len candidates.
Proof.
  intros HH Hlt. unfold sample_candidates_head_tail.
  destruct (Z.leb_spec (len candidates) (H + 0)); [lia|].
  rewrite (py_slice_head candidates H) by lia.
  assert (py_slice candidates (Some (- 0)) None = candidates) as ->.
  { unfold py_slice, slice_bound. change (- 0 <? 0) with false. cbv iota.
    rewrite (Z.min_l 0) by lia. rewrite Z.sub_0_r, Nat2Z.id.
    change (drop (Z.to_nat 0) candidates) with candidates. by apply take_ge. }
  split; [reflexivity|].
  rewrite len_app. unfold len in *. rewrite length_take. lia.
Qed.

Lemma head_tail_zero_tail_witness :
  sample_candidates_head_tail seven 2 0 = ["a"; "b"] ++ seven.
Proof.
  apply (head_tail_zero_tail seven 2); [lia | unfold len; simpl; lia].
Defined.

(** X19. The random strategy with a size [S >= 0] returns [min(N, S)]
    candidates, each taken from the list and none more often than the list
    has it -- the list itself when [N <= S]; with a negative size it raises
    a [ValueError]. *)
Theorem sample_candidates_random_part {Cand} (g : rng) (candidates : list Cand)
    (S : Z) :
  (0 <= S ->
   exists out g',
     sample_candidates_random g candidates S = (Ok out, g')
     /\ len out = Z.min (len candidates) S
     /\ out ⊆+ candidates
     /\ (len candidates <= S -> out = candidates /\ g' = g))
  /\ (S < 0 ->
      exists e, sample_candidates_random g candidates S = (Raise e, g)
                /\ is_ValueError e = true).
Proof.
  pose proof (len_nonneg candidates) as HN. unfold sample_candidates_random. split.
  - intros HS. destruct (Z.leb_spec (len candidates) S) as [Hle|Hgt].
    + exists candidates, g. repeat split; [lia | done].
    + destruct (random_sample_part g candidates S) as (xs & g' & -> & Hlen & Hsub);
        [lia|].
      exists xs, g'. repeat split; [lia | done | lia | lia].
  - intros HS. destruct (Z.leb_spec (len candidates) S); [lia|].
    unfold random_sample. destruct (Z.ltb_spec S 0); [|lia]. simpl.
    eexists. split; reflexivity.
Qed.

Lemma sample_candidates_random_part_witness :
  (exists out g',
     sample_candidates_random [4; 1]%nat seven 2 = (Ok out, g')
     /\ len out = Z.min (len seven) 2
     /\ out ⊆+ seven
     /\ (len seven <= 2 -> out = seven /\ g' = [4; 1]%nat))
  /\ exists e, sample_candidates_random [4; 1]%nat seven (-1) = (Raise e, [4; 1]%nat)
               /\ is_ValueError e = true.
Proof.
  destruct (sample_candidates_random_part [4; 1]%nat seven 2) as [Hok _].
  destruct (sample_candidates_random_part [4; 1]%nat seven (-1)) as [_ Hbad].
  split; [apply Hok | apply Hbad]; lia.
Defined.

Section StratifiedEdges.
Context {Cand Key : Type} `{EqDecision Key}.
Context (cand_get : Cand -> string -> field_value Key).
Context (strata_key : string).

Lemma drawn_Forall (K : Z) (P : Cand -> Prop) (strata : list (Key * list Cand)) outs :
  Forall (fun e => Forall P (snd e)) strata ->
  Forall2 (drawn K) strata outs ->
  Forall P (concat outs).
Proof.
  intros HP Hall. revert HP.
  induction Hall as [|e o rest outs Hd Hall IH]; intros HP; simpl; [constructor|].
  apply Forall_cons in HP as [He HP]. apply Forall_app. split.
  - destruct Hd as (_ & _ & Hsub). by apply Hsub.
  - by apply IH.
Qed.

(** X20. For a cap [K >= 0]: when no candidate holds an unhashable value
    (a list, a dictionary) under the grouping field, stratified sampling
    returns a list, and every candidate in it is one of the candidates
    given and has a hashable value other than [None] under the grouping
    field -- candidates that lack the field are dropped; when some
    candidate holds an unhashable value there, the call raises [TypeError]
    and draws nothing from the random source. *)
Theorem stratified_sample_members (g : rng) (candidates : list Cand) (K : Z) :
  0 <= K ->
  (all_hashable cand_get strata_key candidates ->
   exists out g',
     sample_candidates_stratified cand_get g candidates strata_key K = (Ok out, g')
     /\ Forall (fun c => c ∈ candidates
                         /\ exists key, cand_get c strata_key = Hashable key) out)
  /\ (~ all_hashable cand_get strata_key candidates ->
      exists e,
        sample_candidates_stratified cand_get g candidates strata_key K
        = (Raise e, g)
        /\ exn_type e = "TypeError").
Proof.
  intros HK. split; [|apply stratified_unhashable].
  intros Hhash. unfold sample_candidates_stratified.
  rewrite group_by_stratum_hashable by exact Hhash.
  set (strata := grouped cand_get candidates strata_key).
  destruct (grouped_spec cand_get strata_key candidates) as [Hkeys Hget].
  fold strata in Hkeys, Hget.
  pose proof (group_values_NoDup cand_get strata_key candidates) as Hnd.
  rewrite <- Hkeys in Hnd.
  destruct (sample_strata_spec K strata HK g []) as (outs & g' & Heq & Hall).
  exists (concat outs), g'. split; [exact Heq|].
  apply (drawn_Forall K _ strata outs); [|exact Hall].
  apply Forall_forall. intros [k grp] Hin. simpl.
  rewrite <- (strata_get_present k grp strata Hnd Hin), Hget.
  apply Forall_forall. intros c Hc.
  apply list_elem_of_filter in Hc as [Hk Hc]. split; [exact Hc|].
  unfold in_group in Hk. apply bool_decide_eq_true in Hk.
  unfold group_key_of in Hk. exists k.
  destruct (cand_get c strata_key); congruence.
Qed.

End StratifiedEdges.

Lemma tagged_catalog_unhashable : ~ all_hashable dict_get "category" tagged_catalog.
Proof.
  intros H. unfold all_hashable in H. rewrite Forall_forall in H.
  specialize (H (product 6 (PyList [PyStr "cases"; PyStr "cables"]))).
  assert (product 6 (PyList [PyStr "cases"; PyStr "cables"]) ∈ tagged_catalog) as Hin.
  { unfold tagged_catalog. apply elem_of_app. right. apply list_elem_of_here. }
  specialize (H Hin). vm_compute in H. discriminate.
Qed.

Lemma stratified_sample_members_witness :
  (exists out g',
     sample_candidates_stratified dict_get [3; 1]%nat catalog "category" 2
     = (Ok out, g')
     /\ Forall (fun c => c ∈ catalog
                         /\ exists key, dict_get c "category" = Hashable key) out)
  /\ (exists e,
       sample_candidates_stratified dict_get [3; 1]%nat tagged_catalog "category" 2
       = (Raise e, [3; 1]%nat)
       /\ exn_type e = "TypeError").
Proof.
  split.
  - apply (stratified_sample_members dict_get "category" [3; 1]%nat catalog 2);
      [lia | apply catalog_hashable].
  - apply (stratified_sample_members dict_get "category" [3; 1]%nat tagged_catalog 2);
      [lia | apply tagged_catalog_unhashable].
Defined.


(** ** Candidate data of a step *)


